(** * fin-analyzer: the extraction and ratio core of [analyzer.py]

    A shallow embedding of the functions of [src/analyzer.py] that carry the
    logic of the analyzer: [parse_number_str], [detect_scale],
    [find_by_aliases], [extract_all_numbers], [safe_div], [compute_ratios],
    [flag_anomalies] and the part of [analyze_file] that chains them.

    Modelling choices.
    - A Python [str] is the list of the bytes of its UTF-8 encoding
      ([str := list ascii]).  The character classes the source relies on
      (whitespace of [str.strip], line boundaries of [str.splitlines], the
      digits of [\d], the case mapping of [str.lower]) are modelled on the
      ASCII range; bytes above 127 are neither whitespace, nor digits, nor
      line boundaries, and [lower] leaves them alone.  The two non-ASCII
      characters the source names, U+2014 and U+2013, are their three-byte
      encodings.
    - A Python [float] is an exact rational ([Q]): rounding, infinities and
      signed zeros are abstracted away.  [==] on floats is [Qeq].
    - A Python [dict] is an association list in insertion order: assigning
      to a key that is present keeps its position, assigning to a new key
      appends it.
    - [None] is [option]'s [None].  An exception is the [Raises] case of
      [outcome]; the operations of the source that raise on the values they
      receive here are [float(...)] ([ValueError]) and [/]
      ([ZeroDivisionError]), both under a [try]. *)

From Stdlib Require Import String Ascii List Bool Arith ZArith QArith Lia.
Import ListNotations.
Local Open Scope list_scope.

(** ** Python values *)

Definition str := list ascii.

Definition py (s : string) : str := list_ascii_of_string s.
Arguments py s%_string.

Definition str_eqb (a b : str) : bool :=
  if list_eq_dec ascii_dec a b then true else false.

(** [x in [a, b, ...]] for strings. *)
Definition str_in (x : str) (l : list str) : bool := existsb (str_eqb x) l.

Inductive exn : Type := ValueError | ZeroDivisionError.

Inductive outcome (A : Type) : Type :=
| Returns (a : A)
| Raises (e : exn).
Arguments Returns {A} a.
Arguments Raises {A} e.

Definition bind {A B : Type} (m : outcome A) (k : A -> outcome B) : outcome B :=
  match m with
  | Returns a => k a
  | Raises e => Raises e
  end.

Notation "x <- m ;; k" := (bind m (fun x => k))
  (at level 61, m at next level, right associativity).

(** A [for] loop whose body may raise: the loop stops at the first raise. *)
Fixpoint foldM {A B : Type} (f : B -> A -> outcome B) (l : list A) (b : B)
  : outcome B :=
  match l with
  | [] => Returns b
  | a :: l' => b' <- f b a ;; foldM f l' b'
  end.

(** The value a caller sees, with a raise read as [None]; used to name the
    result of a call that is known to return. *)
Definition value_of {A : Type} (o : outcome (option A)) : option A :=
  match o with
  | Returns r => r
  | Raises _ => None
  end.

(** ** dict *)

Section Dict.
Context {V : Type}.

Definition dict := list (string * V).

Fixpoint dict_get (d : dict) (k : string) : option V :=
  match d with
  | [] => None
  | (k', v) :: d' => if String.eqb k' k then Some v else dict_get d' k
  end.

(** [d[k] = v] *)
Fixpoint dict_set (d : dict) (k : string) (v : V) : dict :=
  match d with
  | [] => [(k, v)]
  | (k', v') :: d' =>
      if String.eqb k' k then (k', v) :: d' else (k', v') :: dict_set d' k v
  end.

Definition keys (d : dict) : list string := map fst d.
End Dict.
Arguments dict V : clear implicits.

(** ** str methods *)

Definition code (c : ascii) : nat := nat_of_ascii c.

(** Whitespace of [str.strip()] in the ASCII range: TAB, LF, VT, FF, CR,
    FS, GS, RS, US and SPACE. *)
Definition is_space (c : ascii) : bool :=
  ((9 <=? code c) && (code c <=? 13)) || ((28 <=? code c) && (code c <=? 32)).

(** [\d] *)
Definition is_digit (c : ascii) : bool := (48 <=? code c) && (code c <=? 57).

Fixpoint lstrip (s : str) : str :=
  match s with
  | c :: s' => if is_space c then lstrip s' else s
  | [] => []
  end.

Definition rstrip (s : str) : str := rev (lstrip (rev s)).

Definition strip (s : str) : str := rstrip (lstrip s).

Definition lower_char (c : ascii) : ascii :=
  if (65 <=? code c) && (code c <=? 90) then ascii_of_nat (code c + 32)%nat else c.

Definition lower (s : str) : str := map lower_char s.

Fixpoint startswith (p s : str) : bool :=
  match p, s with
  | [], _ => true
  | a :: p', b :: s' => Ascii.eqb a b && startswith p' s'
  | _ :: _, [] => false
  end.

Definition endswith (p s : str) : bool := startswith (rev p) (rev s).

(** [p in s] *)
Fixpoint contains (p s : str) : bool :=
  startswith p s ||
  match s with
  | [] => false
  | _ :: s' => contains p s'
  end.

(** [s.replace(old, new)] for a non-empty [old]: occurrences are found left
    to right and do not overlap.  [skip] counts the characters of the
    current occurrence that are still to be passed. *)
Fixpoint replace_from (old new : str) (skip : nat) (s : str) : str :=
  match s with
  | [] => []
  | c :: s' =>
      match skip with
      | S k => replace_from old new k s'
      | O =>
          if startswith old s
          then new ++ replace_from old new (length old - 1)%nat s'
          else c :: replace_from old new 0 s'
      end
  end.

Definition replace (old new s : str) : str := replace_from old new 0 s.

(** [s[1:-1]] *)
Definition slice_1_m1 (s : str) : str := removelast (tl s).

(** [str.splitlines()] on the ASCII line boundaries LF, VT, FF, CR, FS, GS
    and RS, with CR LF one boundary.  [cur] is the line being read, in
    reverse; [after_cr] says that the previous character was a CR. *)
Definition is_linebreak (c : ascii) : bool :=
  ((10 <=? code c) && (code c <=? 13)) || ((28 <=? code c) && (code c <=? 30)).

Fixpoint splitlines_from (cur : str) (after_cr : bool) (s : str) : list str :=
  match s with
  | [] => match cur with [] => [] | _ => [rev cur] end
  | c :: s' =>
      if after_cr && (code c =? 10) then splitlines_from cur false s'
      else if is_linebreak c
           then rev cur :: splitlines_from [] (code c =? 13) s'
           else splitlines_from (c :: cur) false s'
  end.

Definition splitlines (s : str) : list str := splitlines_from [] false s.

(** ** Numbers *)

Definition Qltb (x y : Q) : bool := negb (Qle_bool y x).

Definition digit_val (c : ascii) : Z := Z.of_nat (code c - 48)%nat.

(** The integer a string of digits denotes, most significant digit first. *)
Definition digits_val (ds : str) : Z :=
  fold_left (fun acc c => (10 * acc + digit_val c)%Z) ds 0%Z.

(** Greedy [p*]: the longest prefix of characters in [p], and the rest. *)
Fixpoint span (p : ascii -> bool) (s : str) : str * str :=
  match s with
  | c :: s' =>
      if p c then let '(a, b) := span p s' in (c :: a, b) else ([], s)
  | [] => ([], [])
  end.

(** An optional character [c?]: what it matches, and the rest. *)
Definition opt_char (c : ascii) (s : str) : str * str :=
  match s with
  | c' :: s' => if Ascii.eqb c' c then ([c], s') else ([], s)
  | [] => ([], s)
  end.

(** [float(s)] for [s] over the alphabet that is left by the [re.sub] of
    [parse_number_str] (digits, [.] and [-]).  On that alphabet Python
    accepts an optional leading [-] followed by digits with at most one
    [.] and at least one digit, and raises [ValueError] on the rest. *)
Definition float_ (s : str) : outcome Q :=
  let '(sign, body) := opt_char "-" s in
  let '(ip, r) := span is_digit body in
  let '(_, r) := opt_char "." r in
  let '(fp, r) := span is_digit r in
  match r with
  | _ :: _ => Raises ValueError
  | [] =>
      match ip ++ fp with
      | [] => Raises ValueError
      | ds =>
          let v := Qmake (digits_val ds) (Z.to_pos (10 ^ Z.of_nat (length fp))) in
          Returns (match sign with [] => v | _ => Qopp v end)
      end
  end.

(** U+2014 EM DASH and U+2013 EN DASH, in UTF-8. *)
Definition em_dash : str := map ascii_of_nat [226; 128; 148]%nat.
Definition en_dash : str := map ascii_of_nat [226; 128; 147]%nat.

(** [re.sub(r'[^\d\-.]', '', s)] *)
Definition keeps (c : ascii) : bool :=
  is_digit c || Ascii.eqb c "-" || Ascii.eqb c ".".

Definition re_sub_non_numeric (s : str) : str := filter keeps s.

(** ** parse_number_str (the spec's NumberNormalizer.parse)

    The argument is a [str]: the [s is None] guard of the source concerns a
    value no caller in the program passes. *)
Definition parse_number_str (s : str) (scale : Q) : outcome (option Q) :=
  let s := strip s in
  if str_in s [py ""; em_dash; py "-"; py "N/A"; py "na"; py "n/a"]
  then Returns None
  else
    let neg := startswith (py "(") s && endswith (py ")") s in
    let s := if neg then slice_1_m1 s else s in
    let s := replace en_dash (py "-")
               (replace (py " ") (py "")
                  (replace (py ",") (py "") (replace (py "$") (py "") s))) in
    let s := re_sub_non_numeric s in
    if str_in s [py ""; py "."; py "-"]
    then Returns None
    else
      match float_ s with
      | Raises _ => Returns None
      | Returns val =>
          let val := if neg then Qopp val else val in
          Returns (Some (val * scale))
      end.

(** ** number_re and findall

    [number_re = \(?-?\$?[\d,]+(?:\.\d+)?\)?].  Every quantifier is greedy
    and no alternative of the backtracking search is ever taken: an
    optional [(], [-] or [$] that is present cannot be left for [[\d,]+],
    and everything after [[\d,]+] is optional.  So a match at a position is
    the greedy one. *)
Definition is_digit_or_comma (c : ascii) : bool := is_digit c || Ascii.eqb c ",".

(** The match of [number_re] at the start of [s], if there is one. *)
Definition match_number (s : str) : option str :=
  let '(m1, s1) := opt_char "(" s in
  let '(m2, s2) := opt_char "-" s1 in
  let '(m3, s3) := opt_char "$" s2 in
  let '(m4, s4) := span is_digit_or_comma s3 in
  match m4 with
  | [] => None
  | _ :: _ =>
      let '(dot, t) := opt_char "." s4 in
      let '(d, t') := span is_digit t in
      let '(m5, s5) :=
        match dot, d with
        | _ :: _, _ :: _ => (dot ++ d, t')
        | _, _ => ([], s4)
        end in
      let '(m6, _) := opt_char ")" s5 in
      Some (m1 ++ m2 ++ m3 ++ m4 ++ m5 ++ m6)
  end.

(** [number_re.findall(s)]: matches are searched left to right and do not
    overlap.  [skip] counts the characters of the last match that are still
    to be passed. *)
Fixpoint findall_from (skip : nat) (s : str) : list str :=
  match s with
  | [] => []
  | _ :: s' =>
      match skip with
      | S k => findall_from k s'
      | O =>
          match match_number s with
          | Some m => m :: findall_from (length m - 1)%nat s'
          | None => findall_from 0 s'
          end
      end
  end.

Definition findall (s : str) : list str := findall_from 0 s.

(** ** ALIASES *)

Definition ALIASES : dict (list str) :=
  [ ("Revenue"%string,
      [py "revenue"; py "net sales"; py "sales"; py "turnover"; py "total revenue"]);
    ("Cost of Goods Sold"%string,
      [py "cost of goods sold"; py "cogs"; py "cost of sales"; py "cost of goods"]);
    ("Gross Profit"%string, [py "gross profit"]);
    ("Operating Income"%string,
      [py "operating income"; py "ebit"; py "operating profit"]);
    ("Net Income"%string,
      [py "net income"; py "profit for the year"; py "net profit";
       py "profit (loss)"; py "profit attributable"]);
    ("Total Assets"%string, [py "total assets"; py "assets"]);
    ("Total Liabilities"%string, [py "total liabilities"; py "liabilities"]);
    ("Equity"%string, [py "equity"; py "total equity"; py "shareholders' equity"]);
    ("Cash and Equivalents"%string,
      [py "cash and cash equivalents"; py "cash at bank"; py "cash"]);
    ("Current Assets"%string, [py "current assets"]);
    ("Current Liabilities"%string, [py "current liabilities"]);
    ("Inventory"%string, [py "inventory"; py "inventories"]);
    ("Short Term Debt"%string,
      [py "current portion of long-term debt"; py "short-term borrowings";
       py "short term debt"]);
    ("Long Term Debt"%string,
      [py "long-term debt"; py "long term debt"; py "long term borrowings"]) ].

(** ** detect_scale (the spec's ScaleDetector.detect) *)

Definition detect_scale (text : str) : Q :=
  let low := lower text in
  if contains (py "in thousands") low
     || contains (py "(in thousands") low
     || contains (py "amounts in thousands") low
  then 1000
  else if contains (py "in millions") low
          || contains (py "(in millions") low
          || contains (py "amounts in millions") low
  then 1000000
  else 1.

(** ** find_by_aliases (the spec's AliasExtractor.extract) *)

(** [[ln.strip() for ln in text.splitlines() if ln.strip()]] *)
Definition doc_lines (text : str) : list str :=
  map strip
    (filter (fun ln => match strip ln with [] => false | _ => true end)
       (splitlines text)).

(** The body of [for ph in phrases]. *)
Definition for_phrase (low : str) (nums : list str) (scale : Q) (key : string)
    (results : dict Q) (ph : str) : outcome (dict Q) :=
  if contains ph low then
    match nums with
    | [] => Returns results
    | _ :: _ =>
        let raw := last nums [] in
        val <- parse_number_str raw scale ;;
        match val with
        | Some v => Returns (dict_set results key v)
        | None => Returns results
        end
    end
  else Returns results.

(** The body of [for key, phrases in ALIASES.items()]. *)
Definition for_item (low : str) (nums : list str) (scale : Q)
    (results : dict Q) (item : string * list str) : outcome (dict Q) :=
  foldM (for_phrase low nums scale (fst item)) (snd item) results.

(** The body of [for ln in lines]. *)
Definition for_line (scale : Q) (results : dict Q) (ln : str)
  : outcome (dict Q) :=
  let low := lower ln in
  let nums := findall ln in
  foldM (for_item low nums scale) ALIASES results.

Definition find_by_aliases (text : str) (scale : Q) : outcome (dict Q) :=
  foldM (for_line scale) (doc_lines text) [].

(** ** extract_all_numbers *)

Definition extract_all_numbers (text : str) (scale : Q) : outcome (list Q) :=
  foldM (fun cleaned raw =>
           v <- parse_number_str raw scale ;;
           match v with
           | Some x => Returns (cleaned ++ [x])
           | None => Returns cleaned
           end)
        (findall text) [].

(** ** safe_div, compute_ratios (the spec's RatioEngine) *)

(** [a / b] on floats. *)
Definition truediv (a b : Q) : outcome Q :=
  if Qeq_bool b 0 then Raises ZeroDivisionError else Returns (a / b).

Definition safe_div (a b : option Q) : outcome (option Q) :=
  let body :=
    match a, b with
    | None, _ | _, None => Returns None
    | Some x, Some y =>
        if Qeq_bool y 0 then Returns None
        else q <- truediv x y ;; Returns (Some q)
    end in
  match body with
  | Raises _ => Returns None
  | Returns r => Returns r
  end.

(** Truth value of a [float] or [None] operand of [or]. *)
Definition truthy (x : option Q) : bool :=
  match x with
  | None => false
  | Some v => negb (Qeq_bool v 0)
  end.

Definition compute_ratios (fin : dict Q) : outcome (dict (option Q)) :=
  let r : dict (option Q) := [] in
  let rev := dict_get fin "Revenue" in
  let gross :=
    if truthy (dict_get fin "Gross Profit") then dict_get fin "Gross Profit"
    else
      match dict_get fin "Revenue", dict_get fin "Cost of Goods Sold" with
      | Some revenue, Some cogs => Some (revenue - cogs)
      | _, _ => None
      end in
  v <- safe_div gross rev ;;
  let r := dict_set r "gross_margin" v in
  v <- safe_div (dict_get fin "Operating Income") rev ;;
  let r := dict_set r "operating_margin" v in
  v <- safe_div (dict_get fin "Net Income") rev ;;
  let r := dict_set r "net_margin" v in
  v <- safe_div (dict_get fin "Current Assets") (dict_get fin "Current Liabilities") ;;
  let r := dict_set r "current_ratio" v in
  v <- safe_div (dict_get fin "Total Liabilities") (dict_get fin "Equity") ;;
  let r := dict_set r "debt_to_equity" v in
  v <- safe_div (dict_get fin "Net Income") (dict_get fin "Equity") ;;
  let r := dict_set r "roe" v in
  v <- safe_div (dict_get fin "Net Income") (dict_get fin "Total Assets") ;;
  let r := dict_set r "roa" v in
  Returns r.

(** ** flag_anomalies (the spec's AnomalyFlagger) *)

Definition liquidity_flag : string :=
  "Current ratio < 1 — potential short-term liquidity concern".
Definition leverage_flag : string :=
  "High debt-to-equity (>2) — leverage is high".
Definition loss_flag : string :=
  "Net income negative — company reported a loss".
Definition cash_flag : string :=
  "Negative cash — check parsing errors".

(** [d.get(k)] on a dict whose values may be [None]. *)
Definition ratio_get (ratios : dict (option Q)) (k : string) : option Q :=
  match dict_get ratios k with
  | Some v => v
  | None => None
  end.

(** [x is not None and x < bound] / [x > bound]: the subscript of the
    source reads the key that [get] has just found. *)
Definition below (x : option Q) (bound : Q) : bool :=
  match x with
  | Some v => Qltb v bound
  | None => false
  end.

Definition above (x : option Q) (bound : Q) : bool :=
  match x with
  | Some v => Qltb bound v
  | None => false
  end.

Definition flag_anomalies (fin : dict Q) (ratios : dict (option Q))
  : list string :=
  let flags : list string := [] in
  let flags :=
    if below (ratio_get ratios "current_ratio") 1
    then flags ++ [liquidity_flag] else flags in
  let flags :=
    if above (ratio_get ratios "debt_to_equity") 2
    then flags ++ [leverage_flag] else flags in
  let flags :=
    if below (dict_get fin "Net Income") 0
    then flags ++ [loss_flag] else flags in
  let flags :=
    if below (dict_get fin "Cash and Equivalents") 0
    then flags ++ [cash_flag] else flags in
  flags.

(** ** analyze_file, from the text on and up to the report *)

Record analysis : Type := {
  financial_items : dict Q;
  numbers_found : list Q;
  ratios_of : dict (option Q);
  flags_of : list string
}.

Definition analyze (text : str) : outcome analysis :=
  let scale := detect_scale text in
  fin <- find_by_aliases text scale ;;
  numbers <- extract_all_numbers text scale ;;
  ratios <- compute_ratios fin ;;
  let flags := flag_anomalies fin ratios in
  Returns {| financial_items := fin; numbers_found := numbers;
             ratios_of := ratios; flags_of := flags |}.

(** Line feed, to write documents of several lines. *)
Definition LF : str := [ascii_of_nat 10%nat].

(** ** Vocabulary of the statements *)

(** A sequence of assignments [d[k] = v], in order. *)
Definition apply_ops {V : Type} (ops : list (string * V)) (d : dict V) : dict V :=
  fold_left (fun d kv => dict_set d (fst kv) (snd kv)) ops d.

(** The keys of a list in the order of their first occurrence. *)
Fixpoint first_occurrences (l : list string) : list string :=
  match l with
  | [] => []
  | k :: l' => k :: filter (fun k' => negb (String.eqb k' k)) (first_occurrences l')
  end.

Definition absent_from (ks : list string) (k : string) : bool :=
  negb (existsb (String.eqb k) ks).

(** The last value of a list of optional values. *)
Fixpoint last_some {A : Type} (l : list (option A)) : option A :=
  match l with
  | [] => None
  | x :: l' =>
      match last_some l' with
      | Some y => Some y
      | None => x
      end
  end.

(** The normalized rightmost numeric token of a line, if the line has a
    numeric token and its rightmost one normalizes. *)
Definition line_value (scale : Q) (ln : str) : option Q :=
  match findall ln with
  | [] => None
  | nums => value_of (parse_number_str (last nums []) scale)
  end.

(** One of the phrases is a substring of the lowercased line. *)
Definition phrase_hit (phrases : list str) (ln : str) : bool :=
  existsb (fun ph => contains ph (lower ln)) phrases.

(** The line matches the canonical item [key]. *)
Definition line_matches (key : string) (ln : str) : bool :=
  match dict_get ALIASES key with
  | Some phrases => phrase_hit phrases ln
  | None => false
  end.

(** What the loop over the phrases of one matching item does to [results]. *)
Definition assign_line_value (scale : Q) (ln : str) (key : string)
    (results : dict Q) : dict Q :=
  match line_value scale ln with
  | Some v => dict_set results key v
  | None => results
  end.

(** The canonical items a line matches, in alias-table order. *)
Definition matching_keys (ln : str) : list string :=
  keys (filter (fun item => phrase_hit (snd item) ln) ALIASES).

(** The assignments [results[key] = val] a line gives rise to. *)
Definition line_ops (scale : Q) (ln : str) : list (string * Q) :=
  match line_value scale ln with
  | Some v => map (fun key => (key, v)) (matching_keys ln)
  | None => []
  end.

(** The canonical items in the order [find_by_aliases] assigns to them:
    line after line and, on a line, in alias-table order. *)
Definition assignment_order (scale : Q) (text : str) : list string :=
  flat_map (fun ln => map fst (line_ops scale ln)) (doc_lines text).

(** What a line says about an item: its value if it matches the item and
    its rightmost numeric token normalizes. *)
Definition contribution (scale : Q) (key : string) (ln : str) : option Q :=
  if line_matches key ln then line_value scale ln else None.

(** [ph] occurs in [s]. *)
Definition substring (ph s : str) : Prop := exists pre post, s = pre ++ ph ++ post.

(** The disclosure phrases [detect_scale] searches for. *)
Definition thousands_phrases : list str :=
  [py "in thousands"; py "(in thousands"; py "amounts in thousands"].

Definition millions_phrases : list str :=
  [py "in millions"; py "(in millions"; py "amounts in millions"].

(** The text contains one of the phrases, whatever the letter case. *)
Definition mentions (phrases : list str) (text : str) : Prop :=
  exists ph, In ph phrases /\ substring ph (lower text).

(** The first occurrence of [x] in [l] comes before the first one of [y]. *)
Fixpoint first_before (x y : string) (l : list string) : bool :=
  match l with
  | [] => false
  | a :: l' =>
      if String.eqb a y then false
      else if String.eqb a x then existsb (String.eqb y) l'
      else first_before x y l'
  end.

(** Equality of two optional numbers, as [==] sees it. *)
Definition same_number (a b : option Q) : Prop :=
  match a, b with
  | Some x, Some y => x == y
  | None, None => True
  | _, _ => False
  end.

(** The index of the first line that gives a value to [key]. *)
Fixpoint first_line (scale : Q) (key : string) (lines : list str) : option nat :=
  match lines with
  | [] => None
  | ln :: rest =>
      match contribution scale key ln with
      | Some _ => Some 0%nat
      | None => option_map S (first_line scale key rest)
      end
  end.

(** ** Documents of the scenarios *)

(** Scenario A of the spec: two lines and no scale note. *)
Definition scenario_A : str :=
  py "Total Revenue  $1,000,000" ++ LF ++ py "Net Income  (50,000)".

(** Scenario B: scenario A with the scale note, first as a heading and
    then as a closing line. *)
Definition scenario_B_heading : str :=
  py "amounts in thousands" ++ LF ++ scenario_A.

Definition scenario_B_closing : str :=
  scenario_A ++ LF ++ py "amounts in thousands".

(** ** Vocabulary of the further properties *)

(** The mapping with every value multiplied by [s]. *)
Definition scale_values (s : Q) (d : dict Q) : dict Q :=
  map (fun kv => (fst kv, snd kv * s)) d.

(** A character [number_re] can match. *)
Definition token_char (c : ascii) : bool :=
  is_digit c || Ascii.eqb c "," || Ascii.eqb c "." || Ascii.eqb c "("
  || Ascii.eqb c ")" || Ascii.eqb c "-" || Ascii.eqb c "$".

(** The ratios of a document in which nothing is found. *)
Definition no_ratios : dict (option Q) :=
  [("gross_margin"%string, None); ("operating_margin"%string, None);
   ("net_margin"%string, None); ("current_ratio"%string, None);
   ("debt_to_equity"%string, None); ("roe"%string, None);
   ("roa"%string, None)].

(** A character of an amount written with thousands separators and a
    currency sign. *)
Definition amount_char (c : ascii) : bool :=
  is_digit c || Ascii.eqb c "," || Ascii.eqb c "$".

(** The names of the ratios, in the order [compute_ratios] sets them. *)
Definition ratio_names : list string :=
  ["gross_margin"; "operating_margin"; "net_margin"; "current_ratio";
   "debt_to_equity"; "roe"; "roa"]%string.

(** The ratios that are one item over another: name, numerator,
    denominator. *)
Definition simple_ratios : list (string * string * string) :=
  [("operating_margin", "Operating Income", "Revenue");
   ("net_margin", "Net Income", "Revenue");
   ("current_ratio", "Current Assets", "Current Liabilities");
   ("debt_to_equity", "Total Liabilities", "Equity");
   ("roe", "Net Income", "Equity");
   ("roa", "Net Income", "Total Assets")]%string.


(** * Properties *)

Example em_dash_utf8 : em_dash = py "—".
Proof. reflexivity. Qed.

Example en_dash_utf8 : en_dash = py "–".
Proof. reflexivity. Qed.

Example parse_parenthesised :
  exists v, parse_number_str (py "(1,234.50)") 1 = Returns (Some v)
            /\ v == - (12345 # 10).
Proof. eexists. split; [ reflexivity | reflexivity ]. Qed.

(** ** Loops that do not raise *)

Lemma foldM_returns {A B : Type} (f : B -> A -> outcome B) (g : B -> A -> B) :
  (forall b a, f b a = Returns (g b a)) ->
  forall l b, foldM f l b = Returns (fold_left g l b).
Proof.
  intros Hfg l. induction l as [| a l IH]; intro b; simpl.
  - reflexivity.
  - rewrite Hfg. simpl. apply IH.
Qed.

(** ** Substrings *)

Lemma startswith_spec (p s : str) :
  startswith p s = true <-> exists post, s = p ++ post.
Proof.
  revert s. induction p as [| a p IH]; intro s; simpl.
  - split; [ intros _; exists s; reflexivity | reflexivity ].
  - destruct s as [| b s].
    + split; [ discriminate | intros [post H]; discriminate ].
    + rewrite andb_true_iff, IH. split.
      * intros [Hab [post ->]]. apply Ascii.eqb_eq in Hab. subst b.
        exists post. reflexivity.
      * intros [post H]. injection H as -> ->. split.
        -- apply Ascii.eqb_refl.
        -- exists post. reflexivity.
Qed.

Lemma contains_spec (p s : str) :
  contains p s = true <-> exists pre post, s = pre ++ p ++ post.
Proof.
  induction s as [| c s IH].
  - simpl. rewrite orb_false_r, startswith_spec. split.
    + intros [post H]. exists [], post. exact H.
    + intros [pre [post H]]. destruct pre; [ exists post; exact H | discriminate ].
  - cbn [contains]. rewrite orb_true_iff, startswith_spec, IH. split.
    + intros [[post H] | [pre [post H]]].
      * exists [], post. exact H.
      * exists (c :: pre), post. rewrite H. reflexivity.
    + intros [pre [post H]]. destruct pre as [| c' pre].
      * left. exists post. exact H.
      * right. injection H as _ H. exists pre, post. exact H.
Qed.

(** ** Characters that survive the cleaning of a token *)

Lemma In_lstrip (c : ascii) (s : str) : In c (lstrip s) -> In c s.
Proof.
  induction s as [| a s IH]; simpl; [ tauto | ].
  destruct (is_space a); simpl; tauto.
Qed.

Lemma In_strip (c : ascii) (s : str) : In c (strip s) -> In c s.
Proof.
  unfold strip, rstrip. intro H.
  apply In_lstrip. apply in_rev. apply In_lstrip. apply in_rev in H. exact H.
Qed.

Lemma In_removelast {A : Type} (x : A) (l : list A) :
  In x (removelast l) -> In x l.
Proof.
  induction l as [| a l IH]; simpl; [ tauto | ].
  destruct l; simpl in *; tauto.
Qed.

Lemma In_slice_1_m1 (c : ascii) (s : str) : In c (slice_1_m1 s) -> In c s.
Proof.
  unfold slice_1_m1. intro H. apply In_removelast in H.
  destruct s; simpl in *; tauto.
Qed.

Lemma In_replace_from (old new : str) (c : ascii) :
  forall s skip, In c (replace_from old new skip s) -> In c new \/ In c s.
Proof.
  induction s as [| a s IH]; intros skip H; simpl in H; [ tauto | ].
  destruct skip as [| k].
  - destruct (startswith old (a :: s)).
    + apply in_app_or in H. destruct H as [H | H]; [ tauto | ].
      apply IH in H. simpl. tauto.
    + destruct H as [-> | H]; [ simpl; tauto | ].
      apply IH in H. simpl. tauto.
  - apply IH in H. simpl. tauto.
Qed.

Lemma In_replace (old new s : str) (c : ascii) :
  In c (replace old new s) -> In c new \/ In c s.
Proof. apply In_replace_from. Qed.

Lemma span_spec (p : ascii -> bool) (s a b : str) :
  span p s = (a, b) -> s = a ++ b /\ Forall (fun c => p c = true) a.
Proof.
  revert a b. induction s as [| c s IH]; intros a b H; simpl in H.
  - injection H as <- <-. split; [ reflexivity | constructor ].
  - destruct (p c) eqn:Hc.
    + destruct (span p s) as [a' b'] eqn:Hs. injection H as <- <-.
      destruct (IH a' b' eq_refl) as [-> Hall]. split; [ reflexivity | ].
      constructor; assumption.
    + injection H as <- <-. split; [ reflexivity | constructor ].
Qed.

(** ** Digits and [float] *)

Lemma digit_val_nonneg (c : ascii) : (0 <= digit_val c)%Z.
Proof. unfold digit_val. lia. Qed.

Lemma digit_zero (c : ascii) :
  is_digit c = true -> digit_val c = 0%Z -> c = "0"%char.
Proof.
  unfold is_digit, digit_val. intros Hd Hv.
  apply andb_true_iff in Hd. destruct Hd as [H1 H2].
  apply Nat.leb_le in H1. apply Nat.leb_le in H2.
  assert (Hc : code c = 48%nat) by lia.
  rewrite <- (ascii_nat_embedding c). unfold code in Hc. rewrite Hc. reflexivity.
Qed.

Lemma digits_fold_zero (ds : str) :
  forall acc, (0 <= acc)%Z ->
    fold_left (fun a c => (10 * a + digit_val c)%Z) ds acc = 0%Z ->
    acc = 0%Z /\ Forall (fun c => digit_val c = 0%Z) ds.
Proof.
  induction ds as [| c ds IH]; intros acc Hacc H; simpl in H.
  - split; [ exact H | constructor ].
  - pose proof (digit_val_nonneg c) as Hc.
    destruct (IH (10 * acc + digit_val c)%Z ltac:(lia) H) as [H0 Hall].
    split; [ lia | ]. constructor; [ lia | exact Hall ].
Qed.

Lemma digits_val_zero (ds : str) :
  digits_val ds = 0%Z -> Forall (fun c => digit_val c = 0%Z) ds.
Proof.
  intro H. apply (digits_fold_zero ds 0%Z); [ lia | exact H ].
Qed.

Lemma opt_char_spec (c : ascii) (s m r : str) :
  opt_char c s = (m, r) -> s = m ++ r.
Proof.
  unfold opt_char. destruct s as [| c' s'].
  - intro H. injection H as <- <-. reflexivity.
  - destruct (Ascii.eqb_spec c' c) as [-> | _]; intro H; injection H as <- <-;
      reflexivity.
Qed.

(** A successful [float] has read a digit, and a zero result has read a
    [0]. *)
Lemma float_digits (s : str) (v : Q) :
  float_ s = Returns v ->
  (exists c, In c s /\ is_digit c = true) /\ (v == 0 -> In "0"%char s).
Proof.
  unfold float_.
  destruct (opt_char "-" s) as [sign body] eqn:Hsign.
  destruct (span is_digit body) as [ip r] eqn:Hip.
  destruct (opt_char "." r) as [dot r1] eqn:Hdot.
  destruct (span is_digit r1) as [fp r2] eqn:Hfp.
  apply opt_char_spec in Hsign. apply opt_char_spec in Hdot.
  apply span_spec in Hip. apply span_spec in Hfp.
  destruct Hip as [Hbody Hipd]. destruct Hfp as [Hr1 Hfpd].
  destruct r2 as [| x r2]; [ | discriminate ].
  assert (Hsub : forall c, In c (ip ++ fp) -> In c s).
  { intros c Hc. subst s body r r1. rewrite !in_app_iff.
    apply in_app_or in Hc. tauto. }
  assert (Hdig : Forall (fun c => is_digit c = true) (ip ++ fp)).
  { apply Forall_app. split; assumption. }
  destruct (ip ++ fp) as [| d ds] eqn:Hds; [ discriminate | ].
  intro H. injection H as <-. split.
  - exists d. split; [ apply Hsub; left; reflexivity | ].
    inversion Hdig; assumption.
  - intro Hz.
    assert (Hnum : digits_val (d :: ds) = 0%Z).
    { destruct sign; unfold Qeq in Hz; simpl in Hz; lia. }
    apply digits_val_zero in Hnum.
    inversion Hnum as [| ? ? Hd0 _]; subst.
    inversion Hdig as [| ? ? Hdd _]; subst.
    rewrite <- (digit_zero d Hdd Hd0). apply Hsub. left. reflexivity.
Qed.

(** ** parse_number_str *)

Lemma Qmult_1_r_eq (q : Q) : q * 1 = q.
Proof.
  destruct q as [n d]. unfold Qmult. simpl.
  rewrite Z.mul_1_r, Pos.mul_1_r. reflexivity.
Qed.

Lemma parse_number_str_returns (t : str) (scale : Q) :
  parse_number_str t scale = Returns (value_of (parse_number_str t scale)).
Proof.
  unfold parse_number_str.
  destruct (str_in _ _); [ reflexivity | ].
  destruct (str_in _ _); [ reflexivity | ].
  destruct (float_ _); reflexivity.
Qed.

(** The characters [float] reads are characters of the token. *)
Lemma parse_number_str_digits (t : str) (scale v : Q) :
  parse_number_str t scale = Returns (Some v) ->
  (exists c, In c t /\ is_digit c = true)
  /\ (v == 0 -> scale == 0 \/ In "0"%char t).
Proof.
  unfold parse_number_str.
  destruct (str_in _ _); [ discriminate | ].
  set (neg := startswith (py "(") (strip t) && endswith (py ")") (strip t)).
  set (s1 := if neg then slice_1_m1 (strip t) else strip t).
  set (s2 := replace en_dash (py "-")
               (replace (py " ") (py "")
                  (replace (py ",") (py "") (replace (py "$") (py "") s1)))).
  destruct (str_in _ _); [ discriminate | ].
  destruct (float_ (re_sub_non_numeric s2)) as [val | e] eqn:Hf; [ | discriminate ].
  intro H. injection H as <-.
  assert (Hback : forall c, is_digit c = true ->
                            In c (re_sub_non_numeric s2) -> In c t).
  { intros c Hc Hin. unfold re_sub_non_numeric in Hin.
    apply filter_In in Hin. destruct Hin as [Hin _].
    assert (Hnd : ~ In c (py "-")).
    { simpl. intros [<- | []]. discriminate. }
    unfold s2 in Hin.
    apply In_replace in Hin. destruct Hin as [Hin | Hin]; [ contradiction | ].
    apply In_replace in Hin. destruct Hin as [[] | Hin].
    apply In_replace in Hin. destruct Hin as [[] | Hin].
    apply In_replace in Hin. destruct Hin as [[] | Hin].
    apply In_strip. unfold s1 in Hin.
    destruct neg; [ apply In_slice_1_m1 | ]; exact Hin. }
  apply float_digits in Hf. destruct Hf as [[c [Hin Hc]] Hzero]. split.
  - exists c. split; [ apply Hback; assumption | exact Hc ].
  - intro Hv.
    assert (Hval : val == 0 \/ scale == 0).
    { destruct neg; [ | apply Qmult_integral; exact Hv ].
      apply Qmult_integral in Hv. destruct Hv as [Hv | Hv]; [ left | right; exact Hv ].
      destruct val as [n d]. unfold Qeq in *. simpl in *. lia. }
    destruct Hval as [Hval | Hs]; [ right | left; exact Hs ].
    apply Hback; [ reflexivity | apply Hzero; exact Hval ].
Qed.

(** ** dict *)

Section DictFacts.
Context {V : Type}.
Implicit Types (d : dict V) (k : string) (v : V).

Lemma dict_get_set_eq d k v : dict_get (dict_set d k v) k = Some v.
Proof.
  induction d as [| [k' v'] d IH]; simpl.
  - rewrite String.eqb_refl. reflexivity.
  - destruct (String.eqb k' k) eqn:E; simpl; rewrite E; [ reflexivity | exact IH ].
Qed.

Lemma dict_get_set_neq d k k' v :
  k <> k' -> dict_get (dict_set d k v) k' = dict_get d k'.
Proof.
  intro Hne. induction d as [| [k0 v0] d IH]; simpl.
  - destruct (String.eqb_spec k k'); [ contradiction | reflexivity ].
  - destruct (String.eqb_spec k0 k) as [-> | Hk]; simpl.
    + destruct (String.eqb_spec k k'); [ contradiction | reflexivity ].
    + rewrite IH. reflexivity.
Qed.

Lemma dict_set_idem d k v : dict_set (dict_set d k v) k v = dict_set d k v.
Proof.
  induction d as [| [k' v'] d IH]; simpl.
  - rewrite String.eqb_refl. reflexivity.
  - destruct (String.eqb k' k) eqn:E; simpl; rewrite E; [ reflexivity | ].
    rewrite IH. reflexivity.
Qed.

Lemma keys_dict_set d k v :
  keys (dict_set d k v) =
  if existsb (String.eqb k) (keys d) then keys d else keys d ++ [k].
Proof.
  induction d as [| [k' v'] d IH]; simpl; [ reflexivity | ].
  rewrite (String.eqb_sym k k').
  destruct (String.eqb k' k) eqn:E; simpl; [ reflexivity | ].
  change (map fst (dict_set d k v)) with (keys (dict_set d k v)).
  change (map fst d) with (keys d). rewrite IH.
  destruct (existsb (String.eqb k) (keys d)); reflexivity.
Qed.

Lemma dict_get_app d1 d2 k :
  dict_get (d1 ++ d2) k =
  match dict_get d1 k with
  | Some v => Some v
  | None => dict_get d2 k
  end.
Proof.
  induction d1 as [| [k' v'] d1 IH]; simpl; [ reflexivity | ].
  destruct (String.eqb k' k); [ reflexivity | exact IH ].
Qed.

Lemma dict_get_Some_In d k v : dict_get d k = Some v -> In (k, v) d.
Proof.
  induction d as [| [k' v'] d IH]; simpl; [ discriminate | ].
  destruct (String.eqb_spec k' k) as [-> | _].
  - intro H. injection H as ->. left. reflexivity.
  - intro H. right. apply IH. exact H.
Qed.

Lemma dict_get_None_keys d k : dict_get d k = None -> ~ In k (keys d).
Proof.
  induction d as [| [k' v'] d IH]; simpl; [ tauto | ].
  destruct (String.eqb_spec k' k) as [-> | Hne]; [ discriminate | ].
  intros H [Heq | Hin]; [ contradiction | exact (IH H Hin) ].
Qed.

Lemma In_dict_get d k v :
  NoDup (keys d) -> In (k, v) d -> dict_get d k = Some v.
Proof.
  induction d as [| [k' v'] d IH]; simpl; intros Hnd Hin; [ contradiction | ].
  inversion Hnd as [| ? ? Hnotin Hnd']; subst.
  destruct Hin as [Heq | Hin].
  - injection Heq as -> ->. rewrite String.eqb_refl. reflexivity.
  - destruct (String.eqb_spec k' k) as [-> | _]; [ | apply IH; assumption ].
    exfalso. apply Hnotin. apply (in_map fst) in Hin. exact Hin.
Qed.

Lemma apply_ops_app ops1 ops2 d :
  apply_ops (ops1 ++ ops2) d = apply_ops ops2 (apply_ops ops1 d).
Proof. apply fold_left_app. Qed.

(** The value of a key after a sequence of assignments is the one of the
    last assignment to it. *)
Lemma dict_get_apply_ops ops : forall d k,
  dict_get (apply_ops ops d) k =
  match dict_get (rev ops) k with
  | Some v => Some v
  | None => dict_get d k
  end.
Proof.
  induction ops as [| [k0 v0] ops IH]; intros d k; [ reflexivity | ].
  change (apply_ops ((k0, v0) :: ops) d) with (apply_ops ops (dict_set d k0 v0)).
  rewrite IH. cbn [rev]. rewrite dict_get_app. simpl.
  destruct (dict_get (rev ops) k); [ reflexivity | ].
  destruct (String.eqb_spec k0 k) as [-> | Hne].
  - apply dict_get_set_eq.
  - apply dict_get_set_neq. exact Hne.
Qed.
End DictFacts.

Lemma filter_twice {A : Type} (f g : A -> bool) (l : list A) :
  filter f (filter g l) = filter (fun x => g x && f x) l.
Proof.
  induction l as [| a l IH]; simpl; [ reflexivity | ].
  destruct (g a); simpl; [ destruct (f a) | ]; rewrite IH; reflexivity.
Qed.

Lemma keys_apply_ops {V : Type} (ops : list (string * V)) : forall d : dict V,
  keys (apply_ops ops d) =
  keys d ++ filter (absent_from (keys d)) (first_occurrences (map fst ops)).
Proof.
  induction ops as [| [k v] ops IH]; intro d.
  - simpl. rewrite app_nil_r. reflexivity.
  - change (apply_ops ((k, v) :: ops) d) with (apply_ops ops (dict_set d k v)).
    rewrite IH, keys_dict_set.
    cbn [map fst first_occurrences filter].
    replace (absent_from (keys d) k)
      with (negb (existsb (String.eqb k) (keys d))) by reflexivity.
    rewrite filter_twice.
    destruct (existsb (String.eqb k) (keys d)) eqn:Hk; cbn [negb].
    + f_equal. apply filter_ext_in.
      intros a _. unfold absent_from.
      destruct (String.eqb_spec a k) as [-> | _]; simpl; [ | reflexivity ].
      rewrite Hk. reflexivity.
    + rewrite <- app_assoc. cbn [app]. do 2 f_equal.
      apply filter_ext_in.
      intros a _. unfold absent_from. rewrite existsb_app. simpl.
      rewrite orb_false_r, negb_orb, andb_comm. reflexivity.
Qed.

(** ** find_by_aliases as a sequence of assignments *)

Section Line.
Variables (scale : Q) (ln : str).

Lemma for_phrase_spec (key : string) (results : dict Q) (ph : str) :
  for_phrase (lower ln) (findall ln) scale key results ph =
  Returns (if contains ph (lower ln) then assign_line_value scale ln key results else results).
Proof.
  unfold for_phrase, assign_line_value, line_value.
  destruct (contains ph (lower ln)); [ | reflexivity ].
  destruct (findall ln) as [| n ns]; [ reflexivity | ].
  rewrite parse_number_str_returns. simpl.
  destruct (value_of _); reflexivity.
Qed.

Lemma assign_line_value_idem (key : string) (results : dict Q) :
  assign_line_value scale ln key (assign_line_value scale ln key results) = assign_line_value scale ln key results.
Proof.
  unfold assign_line_value. destruct (line_value scale ln); [ apply dict_set_idem | reflexivity ].
Qed.

Lemma for_item_spec (key : string) (phrases : list str) (results : dict Q) :
  for_item (lower ln) (findall ln) scale results (key, phrases) =
  Returns (if phrase_hit phrases ln then assign_line_value scale ln key results else results).
Proof.
  unfold for_item, phrase_hit. simpl fst. simpl snd.
  assert (Hdone : forall l,
    foldM (for_phrase (lower ln) (findall ln) scale key) l (assign_line_value scale ln key results)
    = Returns (assign_line_value scale ln key results)).
  { induction l as [| ph l IH]; simpl; [ reflexivity | ].
    rewrite for_phrase_spec. simpl. rewrite assign_line_value_idem.
    destruct (contains ph (lower ln)); exact IH. }
  induction phrases as [| ph phrases IH]; simpl; [ reflexivity | ].
  rewrite for_phrase_spec. simpl.
  destruct (contains ph (lower ln)); simpl; [ apply Hdone | exact IH ].
Qed.

Lemma for_line_spec (results : dict Q) :
  for_line scale results ln = Returns (apply_ops (line_ops scale ln) results).
Proof.
  unfold for_line.
  rewrite (foldM_returns _
    (fun d item => if phrase_hit (snd item) ln then assign_line_value scale ln (fst item) d else d)).
  2:{ intros b [key phrases]. apply for_item_spec. }
  f_equal. unfold line_ops, matching_keys, assign_line_value, keys.
  generalize ALIASES as table. intro table. revert results.
  destruct (line_value scale ln) as [v |].
  - induction table as [| [key phrases] table IH]; intro results; simpl;
      [ reflexivity | ].
    destruct (phrase_hit phrases ln); simpl; apply IH.
  - induction table as [| [key phrases] table IH]; intro results; simpl;
      [ reflexivity | ].
    destruct (phrase_hit phrases ln); apply IH.
Qed.
End Line.

Lemma find_by_aliases_ops (text : str) (scale : Q) :
  find_by_aliases text scale =
  Returns (apply_ops (flat_map (line_ops scale) (doc_lines text)) []).
Proof.
  unfold find_by_aliases.
  rewrite (foldM_returns _ (fun d ln => apply_ops (line_ops scale ln) d)).
  2:{ intros b a. apply for_line_spec. }
  f_equal. generalize (@nil (string * Q)) as d.
  induction (doc_lines text) as [| ln lines IH]; intro d; simpl; [ reflexivity | ].
  rewrite apply_ops_app. apply IH.
Qed.

Lemma ALIASES_keys_NoDup : NoDup (keys ALIASES).
Proof.
  unfold keys. simpl.
  repeat (constructor; [ simpl; intuition discriminate | ]). constructor.
Qed.

Lemma existsb_keys_filter {V : Type} (f : V -> bool) (table : dict V) (key : string) :
  NoDup (keys table) ->
  existsb (String.eqb key) (keys (filter (fun item => f (snd item)) table)) =
  match dict_get table key with
  | Some p => f p
  | None => false
  end.
Proof.
  induction table as [| [k p] table IH]; intro Hnd; simpl; [ reflexivity | ].
  inversion Hnd as [| ? ? Hnotin Hnd']; subst.
  destruct (String.eqb_spec k key) as [-> | Hne].
  - destruct (f p) eqn:Hf; simpl.
    + rewrite String.eqb_refl. reflexivity.
    + rewrite (IH Hnd').
      destruct (dict_get table key) eqn:Hg; [ | reflexivity ].
      exfalso. apply Hnotin. apply dict_get_Some_In in Hg.
      apply (in_map fst) in Hg. exact Hg.
  - destruct (f p); simpl.
    + destruct (String.eqb_spec key k) as [-> | _]; [ contradiction | ].
      apply IH. exact Hnd'.
    + apply IH. exact Hnd'.
Qed.

Lemma dict_get_const {V : Type} (v : V) (ks : list string) (key : string) :
  dict_get (rev (map (fun k => (k, v)) ks)) key =
  if existsb (String.eqb key) ks then Some v else None.
Proof.
  induction ks as [| k ks IH]; simpl; [ reflexivity | ].
  rewrite dict_get_app, IH. simpl. rewrite (String.eqb_sym key k).
  destruct (existsb (String.eqb key) ks); simpl.
  - rewrite orb_true_r. reflexivity.
  - rewrite orb_false_r. reflexivity.
Qed.

Lemma dict_get_line_ops (scale : Q) (ln : str) (key : string) :
  dict_get (rev (line_ops scale ln)) key = contribution scale key ln.
Proof.
  unfold line_ops, contribution, line_matches, matching_keys.
  destruct (line_value scale ln) as [v |].
  - rewrite dict_get_const, (existsb_keys_filter (fun p => phrase_hit p ln)).
    + destruct (dict_get ALIASES key) as [p |]; [ | reflexivity ].
      destruct (phrase_hit p ln); reflexivity.
    + apply ALIASES_keys_NoDup.
  - destruct (dict_get ALIASES key) as [p |]; [ | reflexivity ].
    destruct (phrase_hit p ln); reflexivity.
Qed.

Lemma dict_get_doc_ops (scale : Q) (lines : list str) (key : string) :
  dict_get (rev (flat_map (line_ops scale) lines)) key =
  last_some (map (contribution scale key) lines).
Proof.
  induction lines as [| ln lines IH]; simpl; [ reflexivity | ].
  rewrite rev_app_distr, dict_get_app, IH, dict_get_line_ops. reflexivity.
Qed.

(** ** Order of first occurrences *)

Section FirstBefore.
Variables x y : string.

Lemma existsb_eqb_In (k : string) (l : list string) :
existsb (String.eqb k) l = true <-> In k l.
Proof.
rewrite existsb_exists. split.
- intros [a [Hin Ha]]. apply String.eqb_eq in Ha. subst a. exact Hin.
- intro Hin. exists k. split; [ exact Hin | apply String.eqb_refl ].
Qed.

Lemma first_before_app_neither (l1 l2 : list string) :
~ In x l1 -> ~ In y l1 ->
first_before x y (l1 ++ l2) = first_before x y l2.
Proof.
induction l1 as [| a l1 IH]; simpl; intros Hx Hy; [ reflexivity | ].
destruct (String.eqb_spec a y) as [-> | _]; [ tauto | ].
destruct (String.eqb_spec a x) as [-> | _]; [ tauto | ].
apply IH; tauto.
Qed.

Lemma first_before_app_second (l1 l2 : list string) :
~ In x l1 -> In y l1 -> first_before x y (l1 ++ l2) = false.
Proof.
induction l1 as [| a l1 IH]; simpl; intros Hx Hy; [ contradiction | ].
destruct (String.eqb_spec a y) as [-> | Hay]; [ reflexivity | ].
destruct (String.eqb_spec a x) as [-> | _]; [ tauto | ].
apply IH; tauto.
Qed.

Lemma first_before_app_first (l1 l2 : list string) :
In x l1 -> ~ In y l1 -> In y l2 -> first_before x y (l1 ++ l2) = true.
Proof.
induction l1 as [| a l1 IH]; simpl; intros Hx Hy Hy2; [ contradiction | ].
destruct (String.eqb_spec a y) as [-> | Hay]; [ tauto | ].
destruct (String.eqb_spec a x) as [-> | Hax].
- apply existsb_eqb_In. apply in_or_app. right. exact Hy2.
- apply IH; tauto.
Qed.

Lemma first_before_app_both (l1 l2 : list string) :
In x l1 -> In y l1 -> first_before x y (l1 ++ l2) = first_before x y l1.
Proof.
induction l1 as [| a l1 IH]; simpl; intros Hx Hy; [ contradiction | ].
destruct (String.eqb_spec a y) as [-> | Hay]; [ reflexivity | ].
destruct (String.eqb_spec a x) as [-> | Hax].
- rewrite existsb_app.
  assert (H : existsb (String.eqb y) l1 = true)
    by (apply existsb_eqb_In; destruct Hy; [ congruence | assumption ]).
  rewrite H. reflexivity.
- apply IH; tauto.
Qed.

Lemma first_before_filter (f : string -> bool) (l : list string) :
f x = true -> f y = true ->
first_before x y (filter f l) = first_before x y l.
Proof.
intros Hx Hy. induction l as [| a l IH]; simpl; [ reflexivity | ].
destruct (String.eqb_spec a y) as [-> | Hay].
- rewrite Hy. simpl. rewrite String.eqb_refl. reflexivity.
- destruct (String.eqb_spec a x) as [-> | Hax].
  + rewrite Hx. simpl.
    destruct (String.eqb_spec x y) as [-> | _]; [ contradiction | ].
    rewrite String.eqb_refl.
    apply eq_true_iff_eq. rewrite !existsb_eqb_In, filter_In. tauto.
  + destruct (f a); simpl; [ | exact IH ].
    destruct (String.eqb_spec a y); [ contradiction | ].
    destruct (String.eqb_spec a x); [ contradiction | exact IH ].
Qed.

Lemma In_first_occurrences (k : string) (l : list string) :
In k (first_occurrences l) <-> In k l.
Proof.
induction l as [| a l IH]; simpl; [ tauto | ].
rewrite filter_In, IH.
destruct (String.eqb_spec k a) as [-> | Hne]; simpl.
- tauto.
- split; [ tauto | ]. intros [H | H]; [ congruence | tauto ].
Qed.

Lemma first_before_first_occurrences (l : list string) :
first_before x y (first_occurrences l) = first_before x y l.
Proof.
induction l as [| a l IH]; simpl; [ reflexivity | ].
destruct (String.eqb_spec a y) as [-> | Hay]; [ reflexivity | ].
destruct (String.eqb_spec a x) as [-> | Hax].
- apply eq_true_iff_eq.
  rewrite !existsb_eqb_In, filter_In, In_first_occurrences.
  destruct (String.eqb_spec y x); [ congruence | ]. simpl. tauto.
- rewrite first_before_filter; [ exact IH | | ].
  + destruct (String.eqb_spec x a); [ congruence | reflexivity ].
  + destruct (String.eqb_spec y a); [ congruence | reflexivity ].
Qed.
End FirstBefore.

(** The items a line assigns to are the items it matches, in alias-table
    order. *)
Lemma keys_filter_table {V : Type} (f : V -> bool) (table : dict V) :
  NoDup (keys table) ->
  keys (filter (fun item => f (snd item)) table) =
  filter (fun k => match dict_get table k with Some p => f p | None => false end)
         (keys table).
Proof.
  induction table as [| [k p] table IH]; intro Hnd; [ reflexivity | ].
  inversion Hnd as [| ? ? Hnotin Hnd']; subst.
  cbn [filter keys map fst snd dict_get]. rewrite String.eqb_refl.
  assert (Hrest :
    filter (fun k0 => match (if String.eqb k k0 then Some p else dict_get table k0)
                      with Some p0 => f p0 | None => false end) (keys table)
    = keys (filter (fun item => f (snd item)) table)).
  { rewrite (IH Hnd'). apply filter_ext_in. intros a Ha.
    destruct (String.eqb_spec k a) as [-> | _]; [ contradiction | reflexivity ]. }
  fold (keys table). rewrite Hrest.
  destruct (f p); reflexivity.
Qed.

Lemma line_ops_keys (scale : Q) (ln : str) :
  map fst (line_ops scale ln) =
  filter (fun k => match contribution scale k ln with Some _ => true | None => false end)
         (keys ALIASES).
Proof.
  unfold line_ops, contribution, line_matches, matching_keys.
  destruct (line_value scale ln) as [v |].
  - rewrite map_map. cbn [fst]. rewrite map_id.
    rewrite (keys_filter_table (fun p => phrase_hit p ln) ALIASES ALIASES_keys_NoDup).
    apply filter_ext. intro k.
    destruct (dict_get ALIASES k) as [p |]; [ | reflexivity ].
    destruct (phrase_hit p ln); reflexivity.
  - cbn [map]. symmetry.
    transitivity (filter (fun _ : string => false) (keys ALIASES));
      [ | apply filter_false ].
    apply filter_ext. intro k.
    destruct (dict_get ALIASES k) as [p |]; [ | reflexivity ].
    destruct (phrase_hit p ln); reflexivity.
Qed.

Lemma contribution_key (scale : Q) (key : string) (ln : str) (v : Q) :
  contribution scale key ln = Some v -> In key (keys ALIASES).
Proof.
  unfold contribution, line_matches.
  destruct (dict_get ALIASES key) as [p |] eqn:Hg; [ | discriminate ].
  intros _. apply dict_get_Some_In in Hg. apply (in_map fst) in Hg. exact Hg.
Qed.

Lemma In_line_ops_keys (scale : Q) (ln : str) (key : string) :
  In key (map fst (line_ops scale ln)) <->
  exists v, contribution scale key ln = Some v.
Proof.
  rewrite line_ops_keys, filter_In. split.
  - intros [_ H]. destruct (contribution scale key ln) as [v |]; [ | discriminate ].
    exists v. reflexivity.
  - intros [v H]. split; [ apply (contribution_key scale key ln v H) | ].
    rewrite H. reflexivity.
Qed.

Lemma first_line_In (scale : Q) (key : string) (lines : list str) (i : nat) :
  first_line scale key lines = Some i ->
  In key (flat_map (fun ln => map fst (line_ops scale ln)) lines).
Proof.
  revert i. induction lines as [| ln lines IH]; intros i H; simpl in H;
    [ discriminate | ].
  simpl. apply in_or_app.
  destruct (contribution scale key ln) as [v |] eqn:Hc.
  - left. apply In_line_ops_keys. exists v. exact Hc.
  - right. destruct (first_line scale key lines) as [i' |]; [ | discriminate ].
    apply (IH i'). reflexivity.
Qed.

Lemma first_before_order (scale : Q) (A B : string) (lines : list str) :
  forall i j,
    first_line scale A lines = Some i -> first_line scale B lines = Some j ->
    (first_before A B (flat_map (fun ln => map fst (line_ops scale ln)) lines) = true
     <-> (i < j)%nat \/ (i = j /\ first_before A B (keys ALIASES) = true)).
Proof.
  induction lines as [| ln lines IH]; intros i j Hi Hj; [ discriminate | ].
  cbn [flat_map]. simpl in Hi, Hj.
  destruct (contribution scale A ln) as [va |] eqn:HA;
    destruct (contribution scale B ln) as [vb |] eqn:HB.
  - injection Hi as <-. injection Hj as <-.
    rewrite first_before_app_both by (apply In_line_ops_keys; eauto).
    rewrite line_ops_keys, first_before_filter by (rewrite ?HA, ?HB; reflexivity).
    split; [ intro H; right; tauto | intros [H | [_ H]]; [ lia | exact H ] ].
  - injection Hi as <-.
    destruct (first_line scale B lines) as [j' |] eqn:HjB; [ | discriminate ].
    injection Hj as <-.
    rewrite first_before_app_first.
    + split; [ intros _; left; lia | reflexivity ].
    + apply In_line_ops_keys. eauto.
    + rewrite In_line_ops_keys, HB. intros [v H]. discriminate.
    + apply (first_line_In scale B lines j' HjB).
  - injection Hj as <-.
    destruct (first_line scale A lines) as [i' |]; [ | discriminate ].
    injection Hi as <-.
    rewrite first_before_app_second.
    + split; [ discriminate | intros [H | [H _]]; lia ].
    + rewrite In_line_ops_keys, HA. intros [v H]. discriminate.
    + apply In_line_ops_keys. eauto.
  - destruct (first_line scale A lines) as [i' |]; [ | discriminate ].
    destruct (first_line scale B lines) as [j' |]; [ | discriminate ].
    injection Hi as <-. injection Hj as <-.
    rewrite first_before_app_neither.
    + rewrite (IH i' j' eq_refl eq_refl).
      split; (intros [H | [H H']]; [ left; lia | right; split; [ lia | exact H' ] ]).
    + rewrite In_line_ops_keys, HA. intros [v H]. discriminate.
    + rewrite In_line_ops_keys, HB. intros [v H]. discriminate.
Qed.

(** ** C4, C3: parse_number_str *)

(** C4. For every token and every scale (in particular 1, 1000 and
    1000000), [parse_number_str t scale] is [parse_number_str t 1] with the
    value, when there is one, multiplied by [scale]; the sign is part of
    the value that is multiplied. *)
Theorem parse_number_str_linear_in_scale (t : str) (scale : Q) :
  parse_number_str t scale =
  (r <- parse_number_str t 1 ;; Returns (option_map (fun v => v * scale) r)).
Proof.
  unfold parse_number_str.
  destruct (str_in _ _); [ reflexivity | ].
  destruct (str_in _ _); [ reflexivity | ].
  destruct (float_ _) as [val | e]; [ | reflexivity ].
  simpl. rewrite Qmult_1_r_eq. reflexivity.
Qed.

Lemma lower_char_digit (c : ascii) : is_digit c = true -> lower_char c = c.
Proof.
  unfold is_digit, lower_char. intro H.
  apply andb_true_iff in H. destruct H as [H1 H2].
  apply Nat.leb_le in H1. apply Nat.leb_le in H2.
  destruct (65 <=? code c)%nat eqn:E; [ | reflexivity ].
  apply Nat.leb_le in E. lia.
Qed.

Lemma no_digit_no_number (t : str) (scale : Q) :
  (forall c, In c t -> is_digit c = false) ->
  parse_number_str t scale = Returns None.
Proof.
  intro Hnd. rewrite parse_number_str_returns.
  destruct (value_of (parse_number_str t scale)) as [v |] eqn:Hv; [ | reflexivity ].
  pose proof (parse_number_str_returns t scale) as Hr. rewrite Hv in Hr.
  apply parse_number_str_digits in Hr. destruct Hr as [[c [Hin Hc]] _].
  rewrite (Hnd c Hin) in Hc. discriminate.
Qed.

Lemma no_digit_lower (t : str) :
  (forall c, In c (lower t) -> is_digit c = false) ->
  forall c, In c t -> is_digit c = false.
Proof.
  intros H c Hin. destruct (is_digit c) eqn:Hc; [ | reflexivity ].
  rewrite <- Hc. apply H. rewrite <- (lower_char_digit c Hc).
  apply in_map. exact Hin.
Qed.

(** C3. [parse_number_str] returns on every token and every scale, it never
    raises; the sentinel tokens (the em dash, a lone hyphen, the empty
    string, and N/A or NA in any letter case) give [None] for every scale,
    and so do tokens that are not numerals; a token gives a number only if
    it has a digit, and the number zero only if it has the digit 0 (or the
    scale is zero). *)
Theorem parse_number_str_total_and_sentinels :
  (forall t scale, exists r, parse_number_str t scale = Returns r)
  /\ (forall t scale,
        t = em_dash \/ t = py "-" \/ t = py ""
        \/ lower t = py "n/a" \/ lower t = py "na" ->
        parse_number_str t scale = Returns None)
  /\ (forall scale,
        Forall (fun t => parse_number_str t scale = Returns None)
               [py "1.2.3"; py "1-2"; py "5-"; py "--5"; py "."; py "(-)";
                py ","; py "$"; py "abc"])
  /\ (forall t scale v,
        parse_number_str t scale = Returns (Some v) ->
        (exists c, In c t /\ is_digit c = true)
        /\ (v == 0 -> scale == 0 \/ In "0"%char t)).
Proof.
  split; [ | split; [ | split ] ].
  - intros t scale. eexists. apply parse_number_str_returns.
  - intros t scale [-> | [-> | [-> | [H | H]]]]; try reflexivity;
      apply no_digit_no_number; apply no_digit_lower; rewrite H;
      simpl; intros c Hc;
      repeat (destruct Hc as [<- | Hc]; [ reflexivity | ]); contradiction.
  - intro scale. repeat (constructor; [ reflexivity | ]). constructor.
  - apply parse_number_str_digits.
Qed.

Lemma parse_number_str_total_and_sentinels_witness :
  parse_number_str (py "N/a") 1000 = Returns None
  /\ ((exists c, In c (py "0.00") /\ is_digit c = true)
      /\ ((0 # 100) * 1000 == 0 -> 1000 == 0 \/ In "0"%char (py "0.00"))).
Proof.
  split.
  - apply (proj1 (proj2 parse_number_str_total_and_sentinels)).
    right. right. right. left. reflexivity.
  - apply (proj2 (proj2 (proj2 parse_number_str_total_and_sentinels))
             (py "0.00") 1000).
    reflexivity.
Defined.

(** ** C5: detect_scale *)

Lemma mentions_existsb (phrases : list str) (text : str) :
  mentions phrases text <->
  existsb (fun ph => contains ph (lower text)) phrases = true.
Proof.
  unfold mentions, substring. rewrite existsb_exists. split.
  - intros [ph [Hin Hsub]]. exists ph. split; [ exact Hin | ].
    apply contains_spec. exact Hsub.
  - intros [ph [Hin Hc]]. exists ph. split; [ exact Hin | ].
    apply contains_spec. exact Hc.
Qed.

Lemma detect_scale_existsb (text : str) :
  detect_scale text =
  if existsb (fun ph => contains ph (lower text)) thousands_phrases then 1000
  else if existsb (fun ph => contains ph (lower text)) millions_phrases
       then 1000000 else 1.
Proof.
  unfold detect_scale, thousands_phrases, millions_phrases.
  cbn [existsb]. rewrite !orb_false_r, !orb_assoc. reflexivity.
Qed.

(** C5. [detect_scale] returns 1000 if the text contains a thousands
    phrase, whatever the letter case; else 1000000 if it contains a
    millions phrase; else 1.  A text with both gives 1000. *)
Theorem detect_scale_priority (text : str) :
  (mentions thousands_phrases text -> detect_scale text = 1000)
  /\ (~ mentions thousands_phrases text -> mentions millions_phrases text ->
      detect_scale text = 1000000)
  /\ (~ mentions thousands_phrases text -> ~ mentions millions_phrases text ->
      detect_scale text = 1)
  /\ (mentions thousands_phrases text -> mentions millions_phrases text ->
      detect_scale text = 1000).
Proof.
  rewrite !mentions_existsb, detect_scale_existsb.
  destruct (existsb _ thousands_phrases); destruct (existsb _ millions_phrases);
    repeat split; intros; try reflexivity; try discriminate; exfalso; auto.
Qed.

Lemma detect_scale_priority_witness :
  detect_scale (py "Amounts In Thousands, except per-share data in millions") = 1000.
Proof.
  apply (proj2 (proj2 (proj2 (detect_scale_priority _)))).
  - exists (py "amounts in thousands"). split; [ simpl; tauto | ].
    exists [], (py ", except per-share data in millions"). reflexivity.
  - exists (py "in millions"). split; [ simpl; tauto | ].
    exists (py "amounts in thousands, except per-share data "), []. reflexivity.
Defined.

(** ** C6: safe_div *)

(** C6. [safe_div] returns on every pair of operands, it never raises; the
    result is [None] exactly when an operand is [None] or the second one is
    zero, and the quotient otherwise. *)
Theorem safe_div_unavailable_iff (a b : option Q) :
  exists r, safe_div a b = Returns r
    /\ (r = None <-> a = None \/ b = None \/ exists y, b = Some y /\ y == 0)
    /\ (forall x y, a = Some x -> b = Some y -> ~ y == 0 -> r = Some (x / y)).
Proof.
  unfold safe_div, truediv.
  destruct a as [x |], b as [y |].
  - destruct (Qeq_bool y 0) eqn:E.
    + apply Qeq_bool_iff in E. exists None. split; [ reflexivity | ]. split.
      * split; [ | reflexivity ]. intros _. right. right. exists y. tauto.
      * intros x' y' _ Hy Hnz. injection Hy as <-. contradiction.
    + apply Qeq_bool_neq in E. simpl. exists (Some (x / y)).
      split; [ reflexivity | ]. split.
      * split; [ discriminate | ].
        intros [H | [H | [y' [H Hz]]]]; try discriminate.
        injection H as <-. contradiction.
      * intros x' y' Hx Hy _. injection Hx as <-. injection Hy as <-. reflexivity.
  - exists None. split; [ reflexivity | ]. split; [ tauto | ]. discriminate.
  - exists None. split; [ reflexivity | ]. split; [ tauto | ]. discriminate.
  - exists None. split; [ reflexivity | ]. split; [ tauto | ]. discriminate.
Qed.

Lemma safe_div_unavailable_iff_witness :
  exists r, safe_div (Some (-3)) (Some 4) = Returns r /\ r = Some (-3 / 4).
Proof.
  destruct (safe_div_unavailable_iff (Some (-3)) (Some 4)) as [r [Hr [_ Hq]]].
  exists r. split; [ exact Hr | ].
  apply Hq; [ reflexivity | reflexivity | discriminate ].
Defined.

(** ** C7: flag_anomalies *)

Lemma Qltb_lt (x y : Q) : Qltb x y = true <-> x < y.
Proof.
  unfold Qltb. rewrite negb_true_iff. split.
  - intro H. apply Qnot_le_lt. intro Hle.
    apply Qle_bool_iff in Hle. congruence.
  - intro H. destruct (Qle_bool y x) eqn:E; [ | reflexivity ].
    apply Qle_bool_iff in E. exfalso. exact (Qlt_not_le _ _ H E).
Qed.

Lemma below_spec (x : option Q) (bound : Q) :
  below x bound = true <-> exists v, x = Some v /\ v < bound.
Proof.
  destruct x as [v |]; simpl.
  - rewrite Qltb_lt. split.
    + intro H. exists v. tauto.
    + intros [v' [Hv H]]. injection Hv as <-. exact H.
  - split; [ discriminate | intros [v [H _]]; discriminate ].
Qed.

(** The flags are the rules that fire, in the order of the rules. *)
Lemma flag_anomalies_rules (fin : dict Q) (ratios : dict (option Q)) :
  flag_anomalies fin ratios =
  (if below (ratio_get ratios "current_ratio") 1 then [liquidity_flag] else [])
  ++ (if above (ratio_get ratios "debt_to_equity") 2 then [leverage_flag] else [])
  ++ (if below (dict_get fin "Net Income") 0 then [loss_flag] else [])
  ++ (if below (dict_get fin "Cash and Equivalents") 0 then [cash_flag] else []).
Proof.
  unfold flag_anomalies.
  destruct (below (ratio_get ratios "current_ratio") 1),
    (above (ratio_get ratios "debt_to_equity") 2),
    (below (dict_get fin "Net Income") 0),
    (below (dict_get fin "Cash and Equivalents") 0); reflexivity.
Qed.

Lemma liquidity_flag_in (fin : dict Q) (ratios : dict (option Q)) :
  In liquidity_flag (flag_anomalies fin ratios) <->
  below (ratio_get ratios "current_ratio") 1 = true.
Proof.
  rewrite flag_anomalies_rules.
  destruct (below (ratio_get ratios "current_ratio") 1),
    (above (ratio_get ratios "debt_to_equity") 2),
    (below (dict_get fin "Net Income") 0),
    (below (dict_get fin "Cash and Equivalents") 0); simpl;
    (split; [ intro H | intro H; try discriminate; tauto ]);
    try reflexivity;
    repeat (destruct H as [H | H]; [ discriminate | ]); contradiction.
Qed.

(** C7. The liquidity-concern flag is among the flags if and only if
    [current_ratio] is available and strictly less than 1; whether it is
    there depends on [current_ratio] alone, not on what the other three
    rules read; and the flags are those of the rules that fire, in the
    order of the rules. *)
Theorem liquidity_flag_iff (fin : dict Q) (ratios : dict (option Q)) :
  (In liquidity_flag (flag_anomalies fin ratios) <->
   exists v, ratio_get ratios "current_ratio" = Some v /\ v < 1)
  /\ (forall fin' ratios',
        ratio_get ratios' "current_ratio" = ratio_get ratios "current_ratio" ->
        (In liquidity_flag (flag_anomalies fin' ratios') <->
         In liquidity_flag (flag_anomalies fin ratios)))
  /\ flag_anomalies fin ratios =
     (if below (ratio_get ratios "current_ratio") 1 then [liquidity_flag] else [])
     ++ (if above (ratio_get ratios "debt_to_equity") 2 then [leverage_flag] else [])
     ++ (if below (dict_get fin "Net Income") 0 then [loss_flag] else [])
     ++ (if below (dict_get fin "Cash and Equivalents") 0 then [cash_flag] else []).
Proof.
  split; [ | split ].
  - rewrite liquidity_flag_in. apply below_spec.
  - intros fin' ratios' H. rewrite !liquidity_flag_in, H. tauto.
  - apply flag_anomalies_rules.
Qed.

Lemma liquidity_flag_iff_witness :
  In liquidity_flag
     (flag_anomalies [("Net Income"%string, -5)]
        [("current_ratio"%string, Some (8 # 10));
         ("debt_to_equity"%string, Some 3)])
  <-> In liquidity_flag
        (flag_anomalies [] [("current_ratio"%string, Some (8 # 10))]).
Proof.
  apply (proj1 (proj2 (liquidity_flag_iff [] [("current_ratio"%string, Some (8 # 10))]))).
  reflexivity.
Defined.

(** ** C8, C2, C10: find_by_aliases *)

(** C8. The value [find_by_aliases] gives a canonical item is that of the
    last line, in document order, that matches the item and whose rightmost
    numeric token normalizes; there is none if no line does.  A line whose
    rightmost numeric token does not normalize (or that has no numeric
    token) leaves the mapping as it was. *)
Theorem last_successful_match_wins (text : str) (scale : Q) :
  exists d, find_by_aliases text scale = Returns d
    /\ (forall key,
          dict_get d key = last_some (map (contribution scale key) (doc_lines text)))
    /\ (forall results ln,
          line_value scale ln = None -> for_line scale results ln = Returns results).
Proof.
  eexists. split; [ apply find_by_aliases_ops | ]. split.
  - intro key. rewrite dict_get_apply_ops, dict_get_doc_ops.
    destruct (last_some _); reflexivity.
  - intros results ln H. rewrite for_line_spec. unfold line_ops. rewrite H.
    reflexivity.
Qed.

Lemma last_successful_match_wins_witness :
  for_line 1 [("Revenue"%string, 100)] (py "Revenue 500 , restated")
  = Returns [("Revenue"%string, 100)].
Proof.
  destruct (last_successful_match_wins [] 1) as [d [_ [_ H]]].
  apply H. reflexivity.
Defined.

(** C2, as amended. The mapping [find_by_aliases] returns iterates its keys
    in insertion order: the order in which the canonical items first
    receive a value when the lines are read in document order and, on each
    line, the alias table in its order.  So of two extracted items the one
    whose first valued line comes first precedes the other, and the alias
    table decides between two items that get their first value on the same
    line. *)
Theorem key_order_is_insertion_order (text : str) (scale : Q) :
  exists d, find_by_aliases text scale = Returns d
    /\ keys d = first_occurrences (assignment_order scale text)
    /\ (forall A B i j,
          first_line scale A (doc_lines text) = Some i ->
          first_line scale B (doc_lines text) = Some j ->
          (first_before A B (keys d) = true <->
           (i < j)%nat \/ (i = j /\ first_before A B (keys ALIASES) = true))).
Proof.
  assert (Hkeys :
    keys (apply_ops (flat_map (line_ops scale) (doc_lines text)) [])
    = first_occurrences (assignment_order scale text)).
  { rewrite keys_apply_ops. simpl.
    rewrite forallb_filter_id by (apply forallb_forall; reflexivity).
    unfold assignment_order. rewrite flat_map_concat_map, concat_map, map_map.
    rewrite <- flat_map_concat_map. reflexivity. }
  eexists. split; [ apply find_by_aliases_ops | ]. split; [ exact Hkeys | ].
  intros A B i j Hi Hj.
  rewrite Hkeys, first_before_first_occurrences.
  apply first_before_order; assumption.
Qed.

Lemma key_order_is_insertion_order_witness :
  exists d, find_by_aliases (py "Net Income 5" ++ LF ++ py "Revenue 10") 1 = Returns d
            /\ first_before "Net Income" "Revenue" (keys d) = true.
Proof.
  destruct (key_order_is_insertion_order
              (py "Net Income 5" ++ LF ++ py "Revenue 10") 1) as [d [Hd [_ H]]].
  exists d. split; [ exact Hd | ].
  apply (H "Net Income"%string "Revenue"%string 0%nat 1%nat);
    [ reflexivity | reflexivity | left; lia ].
Defined.

(** C2, as stated, fails: Revenue precedes Net Income in the alias table,
    and a document whose Net Income line comes first gives a mapping in
    which Net Income precedes Revenue. *)
Lemma key_order_not_alias_order :
  ~ (forall text scale d A B,
       find_by_aliases text scale = Returns d ->
       first_before A B (keys ALIASES) = true ->
       In A (keys d) -> In B (keys d) ->
       first_before A B (keys d) = true).
Proof.
  intro H.
  specialize (H (py "Net Income 5" ++ LF ++ py "Revenue 10") 1
                [("Net Income"%string, 5); ("Revenue"%string, 10)]
                "Revenue"%string "Net Income"%string
                eq_refl eq_refl).
  simpl in H. specialize (H (or_intror (or_introl eq_refl)) (or_introl eq_refl)).
  discriminate H.
Qed.

(** ** C9: the scaled scenario *)

(** C9. With the lines "Total Revenue  $1,000,000" and
    "Net Income  (50,000)" and the phrase "amounts in thousands", the
    analysis extracts Revenue = 1000000000 and Net Income = -50000000, its
    net margin is -0.05, every ratio is the one of the document without the
    phrase, and the reported-loss flag is raised. *)
Theorem scenario_amounts_in_thousands :
  Forall
    (fun text =>
       exists res,
         analyze text = Returns res
         /\ financial_items res =
            [("Revenue"%string, 1000000000); ("Net Income"%string, -50000000)]
         /\ same_number (ratio_get (ratios_of res) "net_margin") (Some (- (5 # 100)))
         /\ In loss_flag (flags_of res)
         /\ exists res_A,
              analyze scenario_A = Returns res_A
              /\ financial_items res_A =
                 [("Revenue"%string, 1000000); ("Net Income"%string, -50000)]
              /\ Forall2
                   (fun r r_A => fst r = fst r_A /\ same_number (snd r) (snd r_A))
                   (ratios_of res) (ratios_of res_A))
    [scenario_B_heading; scenario_B_closing].
Proof.
  repeat (constructor;
    [ eexists; (split; [ vm_compute; reflexivity | ]);
      (split; [ reflexivity | ]);
      (split; [ reflexivity | ]);
      (split; [ simpl; left; reflexivity | ]);
      eexists; (split; [ vm_compute; reflexivity | ]);
      (split; [ reflexivity | ]);
      repeat (constructor; [ split; reflexivity | ]); constructor
    | ]).
  constructor.
Qed.

(** ** C10: substring matching *)

Lemma line_matches_substring (key : string) (phrases : list str) (ph ln : str) :
  In (key, phrases) ALIASES -> In ph phrases -> substring ph (lower ln) ->
  line_matches key ln = true.
Proof.
  intros Hkey Hph Hsub. unfold line_matches.
  rewrite (In_dict_get ALIASES key phrases ALIASES_keys_NoDup Hkey).
  unfold phrase_hit. apply existsb_exists. exists ph.
  split; [ exact Hph | ]. apply contains_spec. exact Hsub.
Qed.

(** C10. An item is matched as soon as one of its phrases is a substring
    of the lowercased line, so a line for a narrower item also feeds the
    broader one: "Current Liabilities 100" at scale 1 gives
    Total Liabilities = 100 and Current Liabilities = 100, and
    "Current Assets 80" gives Total Assets = 80 and Current Assets = 80.
    Every item matched on a line gets the value of the rightmost numeric
    token of that line. *)
Theorem substring_match_feeds_broader_items :
  find_by_aliases (py "Current Liabilities 100") 1
  = Returns [("Total Liabilities"%string, 100); ("Current Liabilities"%string, 100)]
  /\ find_by_aliases (py "Current Assets 80") 1
     = Returns [("Total Assets"%string, 80); ("Current Assets"%string, 80)]
  /\ (forall scale results ln v key phrases ph,
        line_value scale ln = Some v ->
        In (key, phrases) ALIASES -> In ph phrases -> substring ph (lower ln) ->
        exists d, for_line scale results ln = Returns d
                  /\ dict_get d key = Some v).
Proof.
  split; [ reflexivity | ]. split; [ reflexivity | ].
  intros scale results ln v key phrases ph Hv Hkey Hph Hsub.
  eexists. split; [ apply for_line_spec | ].
  rewrite dict_get_apply_ops, dict_get_line_ops. unfold contribution.
  rewrite (line_matches_substring key phrases ph ln Hkey Hph Hsub), Hv.
  reflexivity.
Qed.

Lemma substring_match_feeds_broader_items_witness :
  exists d, for_line 1 [] (py "Current Liabilities 100") = Returns d
            /\ dict_get d "Total Liabilities" = Some 100.
Proof.
  apply (proj2 (proj2 substring_match_feeds_broader_items)
           1 [] (py "Current Liabilities 100") 100 "Total Liabilities"%string
           [py "total liabilities"; py "liabilities"] (py "liabilities")).
  - reflexivity.
  - simpl. tauto.
  - simpl. tauto.
  - exists (py "current "), (py " 100"). reflexivity.
Defined.

(** ** C1: gross margin *)

Lemma safe_div_returns (a b : option Q) :
  safe_div a b = Returns (value_of (safe_div a b)).
Proof.
  unfold safe_div, truediv. destruct a as [x |], b as [y |]; try reflexivity.
  destruct (Qeq_bool y 0); reflexivity.
Qed.

Lemma bind_safe_div {B : Type} (a b : option Q) (k : option Q -> outcome B) :
  bind (safe_div a b) k = k (value_of (safe_div a b)).
Proof. rewrite safe_div_returns at 1. reflexivity. Qed.

(** The gross margin of [compute_ratios], by the operand it divides. *)
Lemma compute_ratios_gross_margin (fin : dict Q) :
  exists ratios,
    compute_ratios fin = Returns ratios
    /\ ratio_get ratios "gross_margin" =
       value_of
         (safe_div
            (if truthy (dict_get fin "Gross Profit")
             then dict_get fin "Gross Profit"
             else match dict_get fin "Revenue", dict_get fin "Cost of Goods Sold" with
                  | Some revenue, Some cogs => Some (revenue - cogs)
                  | _, _ => None
                  end)
            (dict_get fin "Revenue")).
Proof.
  unfold compute_ratios.
  do 7 (rewrite bind_safe_div; cbv beta).
  eexists. split; reflexivity.
Qed.

(** A Gross Profit that is present and not zero is the numerator. *)
Lemma gross_margin_of_gross_profit (fin : dict Q) (gp : Q) :
  dict_get fin "Gross Profit" = Some gp -> ~ gp == 0 ->
  exists ratios,
    compute_ratios fin = Returns ratios
    /\ ratio_get ratios "gross_margin" =
       value_of (safe_div (Some gp) (dict_get fin "Revenue")).
Proof.
  intros Hgp Hnz. destruct (compute_ratios_gross_margin fin) as [r [Hr Hg]].
  exists r. split; [ exact Hr | ]. rewrite Hg, Hgp. simpl.
  destruct (Qeq_bool gp 0) eqn:E; [ | reflexivity ].
  apply Qeq_bool_iff in E. contradiction.
Qed.

(** Without a Gross Profit item the numerator is Revenue less Cost of Goods
    Sold, when both are there. *)
Lemma gross_margin_fallback (fin : dict Q) (revenue cogs : Q) :
  dict_get fin "Gross Profit" = None ->
  dict_get fin "Revenue" = Some revenue ->
  dict_get fin "Cost of Goods Sold" = Some cogs ->
  exists ratios,
    compute_ratios fin = Returns ratios
    /\ ratio_get ratios "gross_margin" =
       value_of (safe_div (Some (revenue - cogs)) (Some revenue)).
Proof.
  intros Hgp Hrev Hcogs. destruct (compute_ratios_gross_margin fin) as [r [Hr Hg]].
  exists r. split; [ exact Hr | ]. rewrite Hg, Hgp, Hrev, Hcogs. reflexivity.
Qed.

(** C1. A Gross Profit of zero is not used: with Revenue = 100 and
    Gross Profit = 0, as extracted from a two-line document, the gross
    margin is unavailable, and with Cost of Goods Sold = 60 in addition it
    is the fallback (100 - 60) / 100, where GrossProfit / Revenue is 0. *)
Theorem gross_margin_ignores_zero_gross_profit :
  (exists res,
     analyze (py "Revenue 100" ++ LF ++ py "Gross Profit 0") = Returns res
     /\ financial_items res = [("Revenue"%string, 100); ("Gross Profit"%string, 0)]
     /\ ratio_get (ratios_of res) "gross_margin" = None)
  /\ (exists ratios,
        compute_ratios [("Revenue"%string, 100); ("Gross Profit"%string, 0);
                        ("Cost of Goods Sold"%string, 60)] = Returns ratios
        /\ same_number (ratio_get ratios "gross_margin") (Some (4 # 10))
        /\ ~ same_number (ratio_get ratios "gross_margin") (Some 0)).
Proof.
  split.
  - eexists. split; [ vm_compute; reflexivity | ]. split; reflexivity.
  - eexists. split; [ vm_compute; reflexivity | ]. split; [ reflexivity | ].
    simpl. discriminate.
Qed.

(** * Further properties *)

(** ** find_by_aliases: what the mapping holds *)

Lemma last_some_In {A : Type} (l : list (option A)) (v : A) :
  last_some l = Some v -> In (Some v) l.
Proof.
  induction l as [| x l IH]; simpl; [ discriminate | ].
  destruct (last_some l) as [y |].
  - intro H. right. apply IH. exact H.
  - intro H. left. exact H.
Qed.

Lemma NoDup_keys_dict_set {V : Type} (d : dict V) (k : string) (v : V) :
  NoDup (keys d) -> NoDup (keys (dict_set d k v)).
Proof.
  intro H. rewrite keys_dict_set.
  destruct (existsb (String.eqb k) (keys d)) eqn:E; [ exact H | ].
  apply NoDup_app; [ exact H | repeat constructor; simpl; tauto | ].
  intros a Ha [<- | []].
  apply existsb_eqb_In in Ha. congruence.
Qed.

Lemma NoDup_keys_apply_ops {V : Type} (ops : list (string * V)) :
  forall d : dict V, NoDup (keys d) -> NoDup (keys (apply_ops ops d)).
Proof.
  induction ops as [| [k v] ops IH]; intros d H; [ exact H | ].
  change (apply_ops ((k, v) :: ops) d) with (apply_ops ops (dict_set d k v)).
  apply IH. apply NoDup_keys_dict_set. exact H.
Qed.

(** X1. [find_by_aliases] returns on every text and scale; the mapping has
    no key twice, its keys are canonical items, and each value is the
    normalized rightmost numeric token of a line of the text that matches
    the key. *)
Theorem find_by_aliases_entries (text : str) (scale : Q) :
  exists d, find_by_aliases text scale = Returns d
    /\ NoDup (keys d)
    /\ (forall k v, In (k, v) d ->
          In k (keys ALIASES)
          /\ exists ln, In ln (doc_lines text)
                        /\ line_matches k ln = true
                        /\ line_value scale ln = Some v).
Proof.
  eexists. split; [ apply find_by_aliases_ops | ].
  assert (Hnd : NoDup (keys (apply_ops (flat_map (line_ops scale) (doc_lines text))
                                        (@nil (string * Q)))))
    by (apply NoDup_keys_apply_ops; constructor).
  split; [ exact Hnd | ].
  intros k v Hin. apply (In_dict_get _ _ _ Hnd) in Hin.
  rewrite dict_get_apply_ops, dict_get_doc_ops in Hin.
  destruct (last_some _) as [v' |] eqn:Hl; [ | discriminate ].
  injection Hin as ->. apply last_some_In in Hl.
  apply in_map_iff in Hl. destruct Hl as [ln [Hc Hln]].
  split; [ apply (contribution_key scale k ln v Hc) | ].
  exists ln. split; [ exact Hln | ].
  unfold contribution in Hc.
  destruct (line_matches k ln); [ tauto | discriminate ].
Qed.

Lemma find_by_aliases_entries_witness :
  In "Revenue"%string (keys ALIASES)
  /\ exists ln, In ln (doc_lines (py "Sales 12" ++ LF ++ py "Net sales 40"))
                /\ line_matches "Revenue" ln = true
                /\ line_value 1 ln = Some 40.
Proof.
  destruct (find_by_aliases_entries (py "Sales 12" ++ LF ++ py "Net sales 40") 1)
    as [d [Hd [_ H]]].
  apply H. vm_compute in Hd. injection Hd as <-. left. reflexivity.
Defined.

(** ** find_by_aliases: the scale *)

Lemma value_of_parse_scale (t : str) (scale : Q) :
  value_of (parse_number_str t scale) =
  option_map (fun v => v * scale) (value_of (parse_number_str t 1)).
Proof.
  unfold parse_number_str.
  destruct (str_in _ _); [ reflexivity | ].
  destruct (str_in _ _); [ reflexivity | ].
  destruct (float_ _) as [val | e]; [ | reflexivity ].
  simpl. rewrite Qmult_1_r_eq. reflexivity.
Qed.

Lemma line_value_scale (scale : Q) (ln : str) :
  line_value scale ln = option_map (fun v => v * scale) (line_value 1 ln).
Proof.
  unfold line_value. destruct (findall ln); [ reflexivity | ].
  apply value_of_parse_scale.
Qed.

Lemma line_ops_scale (scale : Q) (ln : str) :
  line_ops scale ln = scale_values scale (line_ops 1 ln).
Proof.
  unfold line_ops. rewrite line_value_scale.
  destruct (line_value 1 ln) as [v |]; [ | reflexivity ].
  unfold scale_values. simpl. rewrite map_map. reflexivity.
Qed.

Lemma dict_set_scale_values (s : Q) (d : dict Q) (k : string) (v : Q) :
  dict_set (scale_values s d) k (v * s) = scale_values s (dict_set d k v).
Proof.
  induction d as [| [k' v'] d IH]; simpl; [ reflexivity | ].
  destruct (String.eqb k' k); simpl; [ reflexivity | ].
  f_equal. exact IH.
Qed.

Lemma apply_ops_scale_values (s : Q) (ops : list (string * Q)) :
  forall d, apply_ops (scale_values s ops) (scale_values s d)
            = scale_values s (apply_ops ops d).
Proof.
  induction ops as [| [k v] ops IH]; intro d; [ reflexivity | ].
  change (apply_ops (scale_values s ((k, v) :: ops)) (scale_values s d))
    with (apply_ops (scale_values s ops) (dict_set (scale_values s d) k (v * s))).
  rewrite dict_set_scale_values. apply IH.
Qed.

Lemma find_by_aliases_scaled (text : str) (scale : Q) :
  find_by_aliases text scale =
  (d <- find_by_aliases text 1 ;; Returns (scale_values scale d)).
Proof.
  rewrite !find_by_aliases_ops. simpl. f_equal.
  rewrite <- (apply_ops_scale_values scale _ []). simpl. f_equal.
  induction (doc_lines text) as [| ln lines IH]; [ reflexivity | ].
  simpl. rewrite IH, line_ops_scale. unfold scale_values. rewrite map_app.
  reflexivity.
Qed.

(** X2. The scale acts on the mapping as a whole: [find_by_aliases] at a
    scale gives the mapping it gives at scale 1, same keys in the same
    order, with every value multiplied by the scale. *)
Theorem find_by_aliases_linear_in_scale (text : str) (scale : Q) :
  find_by_aliases text scale =
  (d <- find_by_aliases text 1 ;; Returns (scale_values scale d)).
Proof. apply find_by_aliases_scaled. Qed.

(** ** Lines of a document *)

Lemma splitlines_from_LF (cur : str) (cr : bool) (t : str) :
  splitlines_from cur cr (LF ++ t) =
  if cr then splitlines_from cur false t
  else rev cur :: splitlines_from [] false t.
Proof. destruct cr; reflexivity. Qed.

Lemma splitlines_from_app (keep : str -> bool) (t2 : str) :
  keep [] = false ->
  forall t1 cur cr,
    (cr = true -> cur = []) ->
    filter keep (splitlines_from cur cr (t1 ++ LF ++ t2)) =
    filter keep (splitlines_from cur cr t1) ++ filter keep (splitlines t2).
Proof.
  intro Hkeep. induction t1 as [| c t1 IH]; intros cur cr Hinv.
  - rewrite app_nil_l, splitlines_from_LF. destruct cr.
    + rewrite (Hinv eq_refl). reflexivity.
    + destruct cur as [| a cur]; cbn [filter rev app splitlines_from].
      * rewrite Hkeep. reflexivity.
      * destruct (keep (rev cur ++ [a])); reflexivity.
  - rewrite <- app_comm_cons. cbn [splitlines_from].
    destruct (cr && (code c =? 10)%nat).
    + apply IH. discriminate.
    + destruct (is_linebreak c).
      * cbn [filter]. rewrite IH by reflexivity.
        destruct (keep (rev cur)); reflexivity.
      * apply IH. discriminate.
Qed.

Lemma doc_lines_app (t1 t2 : str) :
  doc_lines (t1 ++ LF ++ t2) = doc_lines t1 ++ doc_lines t2.
Proof.
  unfold doc_lines, splitlines.
  rewrite splitlines_from_app by (reflexivity || discriminate).
  apply map_app.
Qed.

Lemma foldM_app {A B : Type} (f : B -> A -> outcome B) (l1 l2 : list A) :
  forall b, foldM f (l1 ++ l2) b = (b' <- foldM f l1 b ;; foldM f l2 b').
Proof.
  induction l1 as [| a l1 IH]; intro b; simpl; [ reflexivity | ].
  destruct (f b a) as [b' | e]; simpl; [ apply IH | reflexivity ].
Qed.

Lemma filter_absent_from_nil (l : list string) : filter (absent_from []) l = l.
Proof. apply forallb_filter_id. apply forallb_forall. reflexivity. Qed.

(** X3. Reading a document and then further lines continues the scan: the
    mapping of [t1] followed by [t2] on new lines is the mapping of [t2]
    laid over that of [t1].  A key has the value [t2] gives it, else the
    one [t1] gives it; the keys of [t1] come first, in their order, and
    then the keys only [t2] has. *)
Theorem find_by_aliases_of_appended_lines (t1 t2 : str) (scale : Q) :
  exists d1 d2 d,
    find_by_aliases t1 scale = Returns d1
    /\ find_by_aliases t2 scale = Returns d2
    /\ find_by_aliases (t1 ++ LF ++ t2) scale = Returns d
    /\ (forall k, dict_get d k = match dict_get d2 k with
                                 | Some v => Some v
                                 | None => dict_get d1 k
                                 end)
    /\ keys d = keys d1 ++ filter (absent_from (keys d1)) (keys d2).
Proof.
  do 3 eexists.
  split; [ apply find_by_aliases_ops | ].
  split; [ apply find_by_aliases_ops | ].
  split; [ apply find_by_aliases_ops | ].
  rewrite doc_lines_app, flat_map_app, apply_ops_app. split.
  - intro k. rewrite !dict_get_apply_ops.
    destruct (dict_get (rev _) k); reflexivity.
  - rewrite !keys_apply_ops. simpl.
    rewrite !filter_absent_from_nil. reflexivity.
Qed.

(** ** Tokens of number_re *)

Lemma match_number_prefix (s m : str) :
  match_number s = Some m -> exists rest, s = m ++ rest.
Proof.
  unfold match_number.
  destruct (opt_char "(" s) as [m1 s1] eqn:H1.
  destruct (opt_char "-" s1) as [m2 s2] eqn:H2.
  destruct (opt_char "$" s2) as [m3 s3] eqn:H3.
  destruct (span is_digit_or_comma s3) as [m4 s4] eqn:H4.
  destruct m4 as [| c4 m4]; [ discriminate | ].
  destruct (opt_char "." s4) as [dot t] eqn:Hdot.
  destruct (span is_digit t) as [d t'] eqn:Hd.
  apply opt_char_spec in H1, H2, H3, Hdot.
  apply span_spec in H4, Hd. destruct H4 as [H4 _]. destruct Hd as [Hd _].
  assert (H5 : exists m5 s5,
             (match dot, d with
              | _ :: _, _ :: _ => (dot ++ d, t')
              | _, _ => ([], s4)
              end) = (m5, s5) /\ s4 = m5 ++ s5).
  { destruct dot as [| x dot]; [ eexists _, _; split; reflexivity | ].
    destruct d as [| y d]; [ eexists _, _; split; reflexivity | ].
    eexists _, _. split; [ reflexivity | ].
    rewrite Hdot, Hd, <- app_assoc. reflexivity. }
  destruct H5 as [m5 [s5 [-> H5]]].
  destruct (opt_char ")" s5) as [m6 s6] eqn:H6. apply opt_char_spec in H6.
  intro H. injection H as <-. exists s6.
  rewrite H1, H2, H3, H4, H5, H6.
  repeat (rewrite <- app_assoc || rewrite <- app_comm_cons). reflexivity.
Qed.

Lemma findall_from_match (m : str) :
  forall s skip, In m (findall_from skip s) ->
                 exists pre t, s = pre ++ t /\ match_number t = Some m.
Proof.
  induction s as [| c s IH]; intros skip H; [ contradiction | ].
  assert (Hlater : forall k, In m (findall_from k s) ->
            exists pre t, c :: s = pre ++ t /\ match_number t = Some m).
  { intros k Hk. destruct (IH k Hk) as [pre [t [-> Ht]]].
    exists (c :: pre), t. split; [ reflexivity | exact Ht ]. }
  cbn [findall_from] in H. destruct skip as [| k]; [ | apply (Hlater k H) ].
  destruct (match_number (c :: s)) as [m0 |] eqn:Hm; [ | apply (Hlater _ H) ].
  destruct H as [<- | H]; [ | apply (Hlater _ H) ].
  exists [], (c :: s). split; [ reflexivity | exact Hm ].
Qed.

Lemma findall_substring (m s : str) : In m (findall s) -> substring m s.
Proof.
  intro H. destruct (findall_from_match m s 0%nat H) as [pre [t [-> Ht]]].
  destruct (match_number_prefix _ _ Ht) as [rest ->].
  exists pre, rest. reflexivity.
Qed.

Lemma opt_char_matched (c : ascii) (s m r : str) :
  opt_char c s = (m, r) -> m = [] \/ m = [c].
Proof.
  unfold opt_char. destruct s as [| c' s'].
  - intro H. injection H as <- <-. left. reflexivity.
  - destruct (Ascii.eqb c' c); intro H; injection H as <- <-; tauto.
Qed.

Lemma forallb_token_char_digits (p : ascii -> bool) (l : str) :
  (forall c, p c = true -> token_char c = true) ->
  Forall (fun c => p c = true) l -> forallb token_char l = true.
Proof.
  intros Hp H. apply forallb_forall. rewrite Forall_forall in H.
  intros c Hc. apply Hp. apply H. exact Hc.
Qed.

Lemma match_number_shape (s m : str) :
  match_number s = Some m ->
  forallb token_char m = true /\ existsb is_digit_or_comma m = true.
Proof.
  unfold match_number.
  destruct (opt_char "(" s) as [m1 s1] eqn:H1.
  destruct (opt_char "-" s1) as [m2 s2] eqn:H2.
  destruct (opt_char "$" s2) as [m3 s3] eqn:H3.
  destruct (span is_digit_or_comma s3) as [m4 s4] eqn:H4.
  destruct m4 as [| c4 m4]; [ discriminate | ].
  destruct (opt_char "." s4) as [dot t] eqn:Hdot.
  destruct (span is_digit t) as [d t'] eqn:Hd.
  apply opt_char_matched in H1, H2, H3, Hdot.
  apply span_spec in H4, Hd. destruct H4 as [_ H4]. destruct Hd as [_ Hd].
  assert (Hdc : forall c, is_digit_or_comma c = true -> token_char c = true).
  { intros c. unfold is_digit_or_comma, token_char.
    destruct (is_digit c), (Ascii.eqb c ","); simpl; congruence. }
  assert (Hdg : forall c, is_digit c = true -> token_char c = true).
  { intros c Hc. unfold token_char. rewrite Hc. reflexivity. }
  assert (H5 : exists m5 s5,
             (match dot, d with
              | _ :: _, _ :: _ => (dot ++ d, t')
              | _, _ => ([], s4)
              end) = (m5, s5) /\ forallb token_char m5 = true).
  { destruct dot as [| x dot]; [ eexists _, _; split; reflexivity | ].
    destruct d as [| y d]; [ eexists _, _; split; reflexivity | ].
    eexists _, _. split; [ reflexivity | ].
    rewrite forallb_app. apply andb_true_iff. split.
    - destruct Hdot as [Hdot | Hdot]; [ discriminate | ].
      rewrite Hdot. reflexivity.
    - apply (forallb_token_char_digits is_digit); assumption. }
  destruct H5 as [m5 [s5 [-> H5]]].
  destruct (opt_char ")" s5) as [m6 s6] eqn:H6. apply opt_char_matched in H6.
  set (m45 := c4 :: m4) in *.
  assert (Hall : forallb token_char (m1 ++ m2 ++ m3 ++ m45 ++ m5 ++ m6) = true).
  { rewrite !forallb_app, H5.
    rewrite (forallb_token_char_digits is_digit_or_comma m45 Hdc H4).
    destruct H1 as [-> | ->], H2 as [-> | ->], H3 as [-> | ->], H6 as [-> | ->];
      reflexivity. }
  assert (Hex : existsb is_digit_or_comma (m1 ++ m2 ++ m3 ++ m45 ++ m5 ++ m6) = true).
  { rewrite !existsb_app.
    assert (H45 : existsb is_digit_or_comma m45 = true).
    { unfold m45 in *. inversion H4 as [| ? ? Hc4 _]. cbn [existsb].
      rewrite Hc4. reflexivity. }
    rewrite H45, !orb_true_r. reflexivity. }
  intro H. injection H as <-. split; assumption.
Qed.

(** X4. Every token [number_re.findall] returns is a piece of the text it
    is given, is made of the characters of the pattern (digits, commas,
    dots, parentheses, minus and dollar signs) and has a digit or a comma
    in it; so no token is empty. *)
Theorem findall_tokens (s m : str) :
  In m (findall s) ->
  substring m s
  /\ forallb token_char m = true
  /\ existsb is_digit_or_comma m = true
  /\ m <> [].
Proof.
  intro H. split; [ apply findall_substring; exact H | ].
  destruct (findall_from_match m s 0%nat H) as [pre [t [_ Ht]]].
  destruct (match_number_shape _ _ Ht) as [Hall Hex].
  split; [ exact Hall | ]. split; [ exact Hex | ].
  intros ->. discriminate.
Qed.

Lemma findall_tokens_witness :
  substring (py "(1,250.75)") (py "Net loss (1,250.75) restated")
  /\ forallb token_char (py "(1,250.75)") = true
  /\ existsb is_digit_or_comma (py "(1,250.75)") = true
  /\ py "(1,250.75)" <> [].
Proof.
  apply (findall_tokens (py "Net loss (1,250.75) restated")).
  left. reflexivity.
Defined.

Lemma substring_In (m s : str) (c : ascii) : substring m s -> In c m -> In c s.
Proof.
  intros [pre [post ->]] H. apply in_or_app. right. apply in_or_app. left. exact H.
Qed.

(** ** Documents without digits *)

Lemma splitlines_from_chars (c : ascii) (ln : str) :
  forall s cur cr,
    In ln (splitlines_from cur cr s) -> In c ln -> In c cur \/ In c s.
Proof.
  induction s as [| a s IH]; intros cur cr Hln Hc; cbn [splitlines_from] in Hln.
  - destruct cur as [| x cur]; [ contradiction | ].
    destruct Hln as [<- | []]. left. apply in_rev. exact Hc.
  - destruct (cr && (code a =? 10)%nat).
    + destruct (IH _ _ Hln Hc); [ tauto | right; right; assumption ].
    + destruct (is_linebreak a).
      * destruct Hln as [<- | Hln].
        -- left. apply in_rev. exact Hc.
        -- destruct (IH _ _ Hln Hc) as [[] | H]. right. right. exact H.
      * destruct (IH _ _ Hln Hc) as [[<- | H] | H].
        -- right. left. reflexivity.
        -- left. exact H.
        -- right. right. exact H.
Qed.

Lemma doc_lines_chars (text ln : str) (c : ascii) :
  In ln (doc_lines text) -> In c ln -> In c text.
Proof.
  unfold doc_lines. intros Hln Hc.
  apply in_map_iff in Hln. destruct Hln as [raw [<- Hraw]].
  apply filter_In in Hraw. destruct Hraw as [Hraw _].
  apply In_strip in Hc.
  destruct (splitlines_from_chars c raw text [] false Hraw Hc) as [[] | H].
  exact H.
Qed.

Lemma token_no_digit (s raw : str) (scale : Q) :
  (forall c, In c s -> is_digit c = false) ->
  In raw (findall s) ->
  parse_number_str raw scale = Returns None.
Proof.
  intros Hnd Hraw. apply no_digit_no_number. intros c Hc.
  apply Hnd. apply (substring_In raw s c); [ apply findall_substring | ]; assumption.
Qed.

Lemma line_value_no_digit (scale : Q) (ln : str) :
  (forall c, In c ln -> is_digit c = false) -> line_value scale ln = None.
Proof.
  intro Hnd. unfold line_value.
  destruct (findall ln) as [| n ns] eqn:Hf; [ reflexivity | ].
  rewrite (token_no_digit ln (last (n :: ns) []) scale Hnd); [ reflexivity | ].
  rewrite Hf. destruct (exists_last (l := n :: ns)) as [l' [a Hl]]; [ discriminate | ].
  rewrite Hl, last_last. apply in_or_app. right. left. reflexivity.
Qed.

Lemma extract_loop_no_digit (scale : Q) (tokens : list str) :
  Forall (fun raw => parse_number_str raw scale = Returns None) tokens ->
  forall cleaned,
    foldM (fun cleaned raw =>
             v <- parse_number_str raw scale ;;
             match v with
             | Some x => Returns (cleaned ++ [x])
             | None => Returns cleaned
             end) tokens cleaned = Returns cleaned.
Proof.
  induction 1 as [| raw tokens Hraw _ IH]; intro cleaned; simpl; [ reflexivity | ].
  rewrite Hraw. simpl. apply IH.
Qed.

Lemma flat_map_all_nil {A B : Type} (f : A -> list B) (l : list A) :
  (forall x, In x l -> f x = []) -> flat_map f l = [].
Proof.
  induction l as [| a l IH]; intro H; simpl; [ reflexivity | ].
  rewrite (H a (or_introl eq_refl)), IH; [ reflexivity | ].
  intros x Hx. apply H. right. exact Hx.
Qed.

(** X5. A text without a digit (the empty text, a cover page) gives an
    empty analysis: no item, no number, every ratio unavailable and no
    flag. *)
Theorem analyze_text_without_digits (text : str) :
  (forall c, In c text -> is_digit c = false) ->
  analyze text =
  Returns {| financial_items := []; numbers_found := [];
             ratios_of := no_ratios; flags_of := [] |}.
Proof.
  intro Hnd. unfold analyze.
  assert (Hfin : find_by_aliases text (detect_scale text) = Returns []).
  { rewrite find_by_aliases_ops, flat_map_all_nil; [ reflexivity | ].
    intros ln Hln. unfold line_ops.
    rewrite line_value_no_digit; [ reflexivity | ].
    intros c Hc. apply Hnd. apply (doc_lines_chars text ln c Hln Hc). }
  assert (Hnum : extract_all_numbers text (detect_scale text) = Returns []).
  { apply extract_loop_no_digit. apply Forall_forall.
    intros raw Hraw. apply (token_no_digit text raw _ Hnd Hraw). }
  rewrite Hfin, Hnum. reflexivity.
Qed.

Lemma analyze_text_without_digits_witness :
  analyze (py "ANNUAL REPORT" ++ LF ++ py "Total assets: n/a") =
  Returns {| financial_items := []; numbers_found := [];
             ratios_of := no_ratios; flags_of := [] |}.
Proof.
  apply analyze_text_without_digits.
  intros c Hc. simpl in Hc.
  repeat (destruct Hc as [<- | Hc]; [ reflexivity | ]). contradiction.
Defined.

(** ** extract_all_numbers *)

Lemma extract_loop (scale : Q) (tokens : list str) :
  forall cleaned,
    foldM (fun cleaned raw =>
             v <- parse_number_str raw scale ;;
             match v with
             | Some x => Returns (cleaned ++ [x])
             | None => Returns cleaned
             end) tokens cleaned
    = Returns (cleaned ++
               flat_map (fun raw =>
                           match value_of (parse_number_str raw scale) with
                           | Some x => [x]
                           | None => []
                           end) tokens).
Proof.
  induction tokens as [| raw tokens IH]; intro cleaned; cbn [foldM flat_map].
  - rewrite app_nil_r. reflexivity.
  - rewrite parse_number_str_returns at 1. cbn [bind].
    destruct (value_of (parse_number_str raw scale)) as [x |]; cbn [bind];
      rewrite IH.
    + rewrite <- app_assoc. reflexivity.
    + reflexivity.
Qed.

(** X6. [extract_all_numbers] returns on every text and scale; the numbers
    it lists are exactly the values of the tokens of the text that
    normalize, there are at most as many as tokens, and at a scale they
    are the numbers at scale 1, in the same order, multiplied by the
    scale. *)
Theorem extract_all_numbers_of_tokens (text : str) (scale : Q) :
  exists numbers numbers1,
    extract_all_numbers text scale = Returns numbers
    /\ extract_all_numbers text 1 = Returns numbers1
    /\ numbers = map (fun v => v * scale) numbers1
    /\ (length numbers <= length (findall text))%nat
    /\ (forall v, In v numbers <->
                  exists raw, In raw (findall text)
                              /\ parse_number_str raw scale = Returns (Some v)).
Proof.
  unfold extract_all_numbers. do 2 eexists.
  split; [ apply extract_loop | ]. split; [ apply extract_loop | ].
  cbn [app]. generalize (findall text) as tokens. intro tokens. split; [ | split ].
  - induction tokens as [| raw tokens IH]; [ reflexivity | ].
    cbn [flat_map]. rewrite map_app, <- IH. f_equal.
    rewrite value_of_parse_scale.
    destruct (value_of (parse_number_str raw 1)); reflexivity.
  - induction tokens as [| raw tokens IH]; [ apply le_n | ].
    cbn [flat_map]. rewrite length_app. cbn [length].
    destruct (value_of (parse_number_str raw scale)); simpl; lia.
  - intro v. rewrite in_flat_map. split.
    + intros [raw [Hraw Hv]]. exists raw. split; [ exact Hraw | ].
      rewrite parse_number_str_returns.
      destruct (value_of (parse_number_str raw scale)) as [x |]; [ | contradiction ].
      destruct Hv as [-> | []]. reflexivity.
    + intros [raw [Hraw Hv]]. exists raw. split; [ exact Hraw | ].
      rewrite Hv. left. reflexivity.
Qed.

(** ** parse_number_str: whitespace, parentheses, separators *)

Lemma lstrip_spaces_app (ws t : str) :
  Forall (fun c => is_space c = true) ws -> lstrip (ws ++ t) = lstrip t.
Proof.
  induction 1 as [| c ws Hc _ IH]; simpl; [ reflexivity | ].
  rewrite Hc. exact IH.
Qed.

Lemma rstrip_app_spaces (t ws : str) :
  Forall (fun c => is_space c = true) ws -> rstrip (t ++ ws) = rstrip t.
Proof.
  intro H. unfold rstrip. rewrite rev_app_distr, lstrip_spaces_app; [ reflexivity | ].
  apply Forall_rev. exact H.
Qed.

Lemma strip_app_spaces (t ws : str) :
  Forall (fun c => is_space c = true) ws -> strip (t ++ ws) = strip t.
Proof.
  intro H. unfold strip. induction t as [| c t IH].
  - simpl. rewrite <- (app_nil_r ws), lstrip_spaces_app by exact H. reflexivity.
  - simpl. destruct (is_space c); [ exact IH | ].
    apply (rstrip_app_spaces (c :: t) ws H).
Qed.

Lemma strip_spaces_around (ws1 t ws2 : str) :
  Forall (fun c => is_space c = true) ws1 ->
  Forall (fun c => is_space c = true) ws2 ->
  strip (ws1 ++ t ++ ws2) = strip t.
Proof.
  intros H1 H2. rewrite <- (strip_app_spaces t ws2 H2).
  unfold strip. rewrite lstrip_spaces_app by exact H1. reflexivity.
Qed.

(** X7. Whitespace before and after a token does not count:
    [parse_number_str] gives the same result with and without it. *)
Theorem parse_number_str_ignores_outer_whitespace (ws1 t ws2 : str) (scale : Q) :
  Forall (fun c => is_space c = true) ws1 ->
  Forall (fun c => is_space c = true) ws2 ->
  parse_number_str (ws1 ++ t ++ ws2) scale = parse_number_str t scale.
Proof.
  intros H1 H2. unfold parse_number_str.
  rewrite (strip_spaces_around ws1 t ws2 H1 H2). reflexivity.
Qed.

Lemma parse_number_str_ignores_outer_whitespace_witness :
  parse_number_str (py "  " ++ py "(1,234.50)" ++ [ascii_of_nat 9; ascii_of_nat 13]) 1000
  = parse_number_str (py "(1,234.50)") 1000.
Proof.
  apply parse_number_str_ignores_outer_whitespace;
    repeat (constructor; [ reflexivity | ]); constructor.
Defined.

Lemma str_in_spec (x : str) (l : list str) : str_in x l = true <-> In x l.
Proof.
  unfold str_in. rewrite existsb_exists. split.
  - intros [y [Hy H]]. unfold str_eqb in H.
    destruct (list_eq_dec ascii_dec x y) as [-> | _]; [ exact Hy | discriminate ].
  - intro H. exists x. split; [ exact H | ]. unfold str_eqb.
    destruct (list_eq_dec ascii_dec x x); [ reflexivity | contradiction ].
Qed.

Lemma str_in_false (x : str) (l : list str) : ~ In x l -> str_in x l = false.
Proof.
  intro H. destruct (str_in x l) eqn:E; [ | reflexivity ].
  apply str_in_spec in E. contradiction.
Qed.

Lemma Qmult_opp_l_eq (v s : Q) : (- v) * s = - (v * s).
Proof.
  destruct v as [a b], s as [c d]. unfold Qmult, Qopp. simpl.
  rewrite Z.mul_opp_l. reflexivity.
Qed.

Lemma strip_fixed (h l : ascii) (t : str) :
  is_space h = false -> is_space l = false ->
  strip (h :: t ++ [l]) = h :: t ++ [l].
Proof.
  intros Hh Hl. unfold strip. cbn [lstrip]. rewrite Hh.
  unfold rstrip. change (h :: t ++ [l]) with ((h :: t) ++ [l]).
  set (u := h :: t). rewrite rev_app_distr.
  change (rev [l] ++ rev u) with (l :: rev u). cbn [lstrip]. rewrite Hl.
  change (rev (l :: rev u)) with (rev (rev u) ++ [l]).
  rewrite rev_involutive. reflexivity.
Qed.

(** X8. Parentheses negate: for a token [t] without outer whitespace that
    is not itself in parentheses, the token [(t)] gives the number [t]
    gives with the opposite sign, and nothing if [t] gives nothing. *)
Theorem parse_number_str_parentheses_negate (t : str) (scale : Q) :
  strip t = t ->
  startswith (py "(") t && endswith (py ")") t = false ->
  parse_number_str (py "(" ++ t ++ py ")") scale =
  (r <- parse_number_str t scale ;; Returns (option_map Qopp r)).
Proof.
  intros Hstrip Hneg.
  destruct (str_in t [py ""; em_dash; py "-"; py "N/A"; py "na"; py "n/a"]) eqn:Hs.
  - apply str_in_spec in Hs.
    repeat (destruct Hs as [<- | Hs]; [ reflexivity | ]). contradiction.
  - unfold parse_number_str. rewrite Hstrip, Hs, Hneg.
    assert (Hp : strip (py "(" ++ t ++ py ")") = py "(" ++ t ++ py ")")
      by (apply strip_fixed; reflexivity).
    rewrite Hp.
    rewrite (str_in_false (py "(" ++ t ++ py ")")).
    2:{ simpl. intros H.
        repeat (destruct H as [H | H]; [ discriminate H | ]). contradiction. }
    assert (Hend : endswith (py ")") (py "(" ++ t ++ py ")") = true).
    { unfold endswith. change (py "(" ++ t ++ py ")") with ((py "(" ++ t) ++ py ")").
      rewrite rev_app_distr. reflexivity. }
    rewrite Hend. cbn [py list_ascii_of_string app startswith andb].
    rewrite Ascii.eqb_refl. cbn [andb].
    unfold slice_1_m1. cbn [tl]. rewrite removelast_last.
    destruct (str_in (re_sub_non_numeric _) _); [ reflexivity | ].
    destruct (float_ _) as [val | e]; [ | reflexivity ].
    cbn [bind option_map]. rewrite Qmult_opp_l_eq. reflexivity.
Qed.

Lemma parse_number_str_parentheses_negate_witness :
  parse_number_str (py "(" ++ py "$2,500.25" ++ py ")") 1000 =
  (r <- parse_number_str (py "$2,500.25") 1000 ;; Returns (option_map Qopp r)).
Proof.
  apply parse_number_str_parentheses_negate; reflexivity.
Defined.

Lemma replace_char_filter (c : ascii) (s : str) :
  replace [c] [] s = filter (fun x => negb (Ascii.eqb c x)) s.
Proof.
  unfold replace. induction s as [| x s IH]; [ reflexivity | ].
  cbn [replace_from startswith filter length Nat.sub app].
  rewrite andb_true_r. destruct (Ascii.eqb c x); cbn [negb]; rewrite IH; reflexivity.
Qed.

Lemma replace_absent (h : ascii) (old new : str) (s : str) :
  (forall x, In x s -> Ascii.eqb h x = false) ->
  replace (h :: old) new s = s.
Proof.
  unfold replace. induction s as [| x s IH]; intro H; [ reflexivity | ].
  cbn [replace_from startswith]. rewrite (H x (or_introl eq_refl)). cbn [andb].
  rewrite IH; [ reflexivity | ]. intros y Hy. apply H. right. exact Hy.
Qed.

Lemma span_all (p : ascii -> bool) (s : str) :
  Forall (fun c => p c = true) s -> span p s = (s, []).
Proof.
  induction 1 as [| c s Hc _ IH]; simpl; [ reflexivity | ].
  rewrite Hc, IH. reflexivity.
Qed.

Lemma float_of_digits (ds : str) :
  Forall (fun c => is_digit c = true) ds -> ds <> [] ->
  float_ ds = Returns (inject_Z (digits_val ds)).
Proof.
  intros Hd Hne. destruct ds as [| d ds]; [ contradiction | ].
  unfold float_.
  assert (Hsign : opt_char "-" (d :: ds) = ([], d :: ds)).
  { cbn [opt_char]. destruct (Ascii.eqb_spec d "-") as [-> | _]; [ | reflexivity ].
    inversion Hd as [| ? ? Hbad _]. discriminate Hbad. }
  rewrite Hsign, (span_all is_digit (d :: ds) Hd).
  cbn [opt_char span]. rewrite app_nil_r. reflexivity.
Qed.

Lemma amount_char_cases (c : ascii) :
  amount_char c = true -> is_digit c = true \/ c = ","%char \/ c = "$"%char.
Proof.
  unfold amount_char. rewrite !orb_true_iff, !Ascii.eqb_eq. tauto.
Qed.

Lemma digit_not_space (c : ascii) : is_digit c = true -> is_space c = false.
Proof.
  unfold is_digit, is_space. intro H.
  apply andb_true_iff in H. destruct H as [H1 H2].
  apply Nat.leb_le in H1. apply Nat.leb_le in H2.
  apply orb_false_iff. split; apply andb_false_iff.
  - right. apply Nat.leb_gt. lia.
  - right. apply Nat.leb_gt. lia.
Qed.

Lemma amount_char_not_space (c : ascii) : amount_char c = true -> is_space c = false.
Proof.
  intro H. destruct (amount_char_cases c H) as [Hd | [-> | ->]];
    [ apply digit_not_space; exact Hd | reflexivity | reflexivity ].
Qed.

Lemma strip_no_space (s : str) :
  Forall (fun c => is_space c = false) s -> strip s = s.
Proof.
  intro H.
  assert (Hl : forall u, Forall (fun c => is_space c = false) u -> lstrip u = u).
  { intros u Hu. destruct Hu as [| c u Hc _]; [ reflexivity | ].
    simpl. rewrite Hc. reflexivity. }
  unfold strip, rstrip. rewrite (Hl s H), (Hl (rev s)) by (apply Forall_rev; exact H).
  apply rev_involutive.
Qed.

(** X9. Thousands separators and the currency sign do not change the
    value: a token made of digits, commas and dollar signs, with a digit in
    it, gives the integer its digits write, multiplied by the scale. *)
Theorem parse_number_str_separators (s : str) (scale : Q) :
  Forall (fun c => amount_char c = true) s ->
  (exists c, In c s /\ is_digit c = true) ->
  parse_number_str s scale =
  Returns (Some (inject_Z (digits_val (filter is_digit s)) * scale)).
Proof.
  intros Hall [d [Hd Hdd]]. rewrite Forall_forall in Hall.
  assert (Hstrip : strip s = s).
  { apply strip_no_space. apply Forall_forall. intros c Hc.
    apply amount_char_not_space. apply Hall. exact Hc. }
  assert (Hsent : str_in s [py ""; em_dash; py "-"; py "N/A"; py "na"; py "n/a"]
                  = false).
  { apply str_in_false. intro H.
    repeat (destruct H as [<- | H];
            [ simpl in Hd;
              repeat (destruct Hd as [<- | Hd]; [ discriminate Hdd | ]);
              contradiction | ]).
    contradiction. }
  assert (Hneg : startswith (py "(") s = false).
  { destruct s as [| c s]; [ contradiction | ].
    cbn [py list_ascii_of_string startswith].
    destruct (Ascii.eqb_spec "(" c) as [<- | _]; [ | reflexivity ].
    specialize (Hall "("%char (or_introl eq_refl)). discriminate Hall. }
  assert (Hres : re_sub_non_numeric
                   (replace en_dash (py "-")
                      (replace (py " ") (py "")
                         (replace (py ",") (py "") (replace (py "$") (py "") s))))
                 = filter is_digit s).
  { change (py "$") with ["$"%char]. change (py ",") with [","%char].
    change (py " ") with [" "%char]. change (py "") with (@nil ascii).
    rewrite !replace_char_filter.
    change en_dash with (ascii_of_nat 226 :: map ascii_of_nat [128; 147]%nat).
    rewrite replace_absent.
    2:{ intros x Hx. apply filter_In in Hx. destruct Hx as [Hx _].
        apply filter_In in Hx. destruct Hx as [Hx _].
        apply filter_In in Hx. destruct Hx as [Hx _].
        destruct (Ascii.eqb_spec (ascii_of_nat 226) x) as [<- | _]; [ | reflexivity ].
        specialize (Hall _ Hx). discriminate Hall. }
    unfold re_sub_non_numeric. rewrite !filter_twice.
    apply filter_ext_in. intros c Hc. specialize (Hall c Hc).
    destruct (amount_char_cases c Hall) as [Hdig | [-> | ->]];
      [ | reflexivity | reflexivity ].
    unfold keeps. rewrite Hdig.
    destruct (Ascii.eqb_spec "$" c) as [<- | _]; [ discriminate Hdig | ].
    destruct (Ascii.eqb_spec "," c) as [<- | _]; [ discriminate Hdig | ].
    destruct (Ascii.eqb_spec " " c) as [<- | _]; [ discriminate Hdig | ].
    reflexivity. }
  assert (Hdigits : Forall (fun c => is_digit c = true) (filter is_digit s)).
  { apply Forall_forall. intros c Hc. apply filter_In in Hc. tauto. }
  assert (Hne : filter is_digit s <> []).
  { intro H. assert (Hin : In d (filter is_digit s)) by (apply filter_In; tauto).
    rewrite H in Hin. contradiction. }
  unfold parse_number_str.
  rewrite Hstrip, Hsent, Hneg. cbn [andb]. rewrite Hres.
  rewrite (str_in_false (filter is_digit s)).
  2:{ destruct (filter is_digit s) as [| c ds]; [ contradiction | ].
      inversion Hdigits as [| ? ? Hc _]; subst.
      simpl. intros [H | [H | [H | []]]]; try discriminate H;
        injection H as <- _; discriminate Hc. }
  rewrite (float_of_digits _ Hdigits Hne). reflexivity.
Qed.

Lemma parse_number_str_separators_witness :
  parse_number_str (py "$1,250,000") 1000 = Returns (Some (inject_Z 1250000 * 1000)).
Proof.
  apply (parse_number_str_separators (py "$1,250,000") 1000).
  - repeat (constructor; [ reflexivity | ]). constructor.
  - exists "1"%char. split; [ simpl; tauto | reflexivity ].
Defined.

(** ** compute_ratios *)

Lemma value_of_safe_div (a b : option Q) :
  value_of (safe_div a b) =
  match a, b with
  | Some x, Some y => if Qeq_bool y 0 then None else Some (x / y)
  | _, _ => None
  end.
Proof.
  unfold safe_div, truediv. destruct a as [x |], b as [y |]; try reflexivity.
  destruct (Qeq_bool y 0); reflexivity.
Qed.

(** X10. [compute_ratios] returns on every mapping, and the ratios it
    returns are always the same seven names in the same order, whatever is
    missing from the mapping. *)
Theorem compute_ratios_names (fin : dict Q) :
  exists ratios, compute_ratios fin = Returns ratios /\ keys ratios = ratio_names.
Proof.
  unfold compute_ratios. do 7 (rewrite bind_safe_div; cbv beta).
  eexists. split; reflexivity.
Qed.

(** X11. Each of the six ratios that are one item over another is the
    quotient of the two items when both are in the mapping and the
    denominator is not zero, and unavailable when one of them is missing
    or the denominator is zero. *)
Theorem compute_ratios_quotients (fin : dict Q) :
  exists ratios,
    compute_ratios fin = Returns ratios
    /\ forall name num den,
         In (name, num, den) simple_ratios ->
         (forall x y, dict_get fin num = Some x -> dict_get fin den = Some y ->
                      ~ y == 0 -> ratio_get ratios name = Some (x / y))
         /\ (dict_get fin num = None \/ dict_get fin den = None
             \/ (exists y, dict_get fin den = Some y /\ y == 0) ->
             ratio_get ratios name = None).
Proof.
  unfold compute_ratios. do 7 (rewrite bind_safe_div; cbv beta).
  eexists. split; [ reflexivity | ].
  intros name num den Hin.
  assert (Hq : forall a b : option Q,
    (forall x y, a = Some x -> b = Some y -> ~ y == 0 ->
                 value_of (safe_div a b) = Some (x / y))
    /\ (a = None \/ b = None \/ (exists y, b = Some y /\ y == 0) ->
        value_of (safe_div a b) = None)).
  { intros a b. rewrite value_of_safe_div. split.
    - intros x y -> -> Hy. destruct (Qeq_bool y 0) eqn:E; [ | reflexivity ].
      apply Qeq_bool_iff in E. contradiction.
    - intros [-> | [-> | [y [-> Hy]]]]; [ reflexivity | destruct a; reflexivity | ].
      destruct a; [ | reflexivity ].
      apply Qeq_bool_iff in Hy. rewrite Hy. reflexivity. }
  simpl in Hin.
  repeat (destruct Hin as [Hin | Hin];
          [ injection Hin as <- <- <-; apply Hq | ]).
  contradiction.
Qed.

Lemma compute_ratios_quotients_witness :
  exists ratios,
    compute_ratios [("Current Assets"%string, 80); ("Current Liabilities"%string, 100)]
    = Returns ratios
    /\ ratio_get ratios "current_ratio" = Some (80 / 100).
Proof.
  destruct (compute_ratios_quotients
              [("Current Assets"%string, 80); ("Current Liabilities"%string, 100)])
    as [ratios [Hr H]].
  exists ratios. split; [ exact Hr | ].
  apply (proj1 (H "current_ratio" "Current Assets" "Current Liabilities"
                  ltac:(simpl; tauto))%string);
    [ reflexivity | reflexivity | discriminate ].
Defined.

(** X12. Without a Revenue item, or with a Revenue of zero, the three
    margins are unavailable, whatever else the mapping holds. *)
Theorem margins_need_revenue (fin : dict Q) :
  dict_get fin "Revenue" = None
  \/ (exists y, dict_get fin "Revenue" = Some y /\ y == 0) ->
  exists ratios,
    compute_ratios fin = Returns ratios
    /\ ratio_get ratios "gross_margin" = None
    /\ ratio_get ratios "operating_margin" = None
    /\ ratio_get ratios "net_margin" = None.
Proof.
  intro H. unfold compute_ratios. do 7 (rewrite bind_safe_div; cbv beta).
  eexists. split; [ reflexivity | ].
  assert (Hnone : forall a, value_of (safe_div a (dict_get fin "Revenue")) = None).
  { intro a. rewrite value_of_safe_div.
    destruct H as [-> | [y [-> Hy]]]; [ destruct a; reflexivity | ].
    apply Qeq_bool_iff in Hy. rewrite Hy. destruct a; reflexivity. }
  repeat split; apply Hnone.
Qed.

Lemma margins_need_revenue_witness :
  exists ratios,
    compute_ratios [("Net Income"%string, 5); ("Gross Profit"%string, 7)]
    = Returns ratios
    /\ ratio_get ratios "gross_margin" = None
    /\ ratio_get ratios "operating_margin" = None
    /\ ratio_get ratios "net_margin" = None.
Proof.
  apply margins_need_revenue. left. reflexivity.
Defined.

(** ** The scale cancels in the ratios and in the flags *)







(** The mapping [compute_ratios] builds, entry by entry. *)
Lemma compute_ratios_entries (fin : dict Q) :
  compute_ratios fin =
  Returns
    [("gross_margin"%string,
      value_of
        (safe_div
           (if truthy (dict_get fin "Gross Profit") then dict_get fin "Gross Profit"
            else match dict_get fin "Revenue", dict_get fin "Cost of Goods Sold" with
                 | Some revenue, Some cogs => Some (revenue - cogs)
                 | _, _ => None
                 end)
           (dict_get fin "Revenue")));
     ("operating_margin"%string,
      value_of (safe_div (dict_get fin "Operating Income") (dict_get fin "Revenue")));
     ("net_margin"%string,
      value_of (safe_div (dict_get fin "Net Income") (dict_get fin "Revenue")));
     ("current_ratio"%string,
      value_of (safe_div (dict_get fin "Current Assets")
                         (dict_get fin "Current Liabilities")));
     ("debt_to_equity"%string,
      value_of (safe_div (dict_get fin "Total Liabilities") (dict_get fin "Equity")));
     ("roe"%string,
      value_of (safe_div (dict_get fin "Net Income") (dict_get fin "Equity")));
     ("roa"%string,
      value_of (safe_div (dict_get fin "Net Income") (dict_get fin "Total Assets")))].
Proof.
  unfold compute_ratios. do 7 (rewrite bind_safe_div; cbv beta). reflexivity.
Qed.














(** ** flag_anomalies: the other rules *)

Lemma above_spec (x : option Q) (bound : Q) :
  above x bound = true <-> exists v, x = Some v /\ bound < v.
Proof.
  destruct x as [v |]; simpl.
  - rewrite Qltb_lt. split.
    + intro H. exists v. tauto.
    + intros [v' [Hv H]]. injection Hv as <-. exact H.
  - split; [ discriminate | intros [v [H _]]; discriminate ].
Qed.

Lemma flags_membership (fin : dict Q) (ratios : dict (option Q)) (f : string) :
  In f (flag_anomalies fin ratios) <->
  (f = liquidity_flag /\ below (ratio_get ratios "current_ratio") 1 = true)
  \/ (f = leverage_flag /\ above (ratio_get ratios "debt_to_equity") 2 = true)
  \/ (f = loss_flag /\ below (dict_get fin "Net Income") 0 = true)
  \/ (f = cash_flag /\ below (dict_get fin "Cash and Equivalents") 0 = true).
Proof.
  rewrite flag_anomalies_rules, !in_app_iff.
  destruct (below (ratio_get ratios "current_ratio") 1),
    (above (ratio_get ratios "debt_to_equity") 2),
    (below (dict_get fin "Net Income") 0),
    (below (dict_get fin "Cash and Equivalents") 0); simpl;
    intuition (congruence || discriminate).
Qed.

(** X15. The other three rules are as independent as the first: the
    high-leverage flag is raised exactly when [debt_to_equity] is
    available and above 2, the reported-loss flag exactly when Net Income
    is present and negative, the negative-cash flag exactly when Cash and
    Equivalents is present and negative.  No flag is raised twice. *)
Theorem flag_anomalies_rules_iff (fin : dict Q) (ratios : dict (option Q)) :
  (In leverage_flag (flag_anomalies fin ratios) <->
   exists v, ratio_get ratios "debt_to_equity" = Some v /\ 2 < v)
  /\ (In loss_flag (flag_anomalies fin ratios) <->
      exists v, dict_get fin "Net Income" = Some v /\ v < 0)
  /\ (In cash_flag (flag_anomalies fin ratios) <->
      exists v, dict_get fin "Cash and Equivalents" = Some v /\ v < 0)
  /\ NoDup (flag_anomalies fin ratios).
Proof.
  rewrite <- above_spec, <- !below_spec. repeat split.
  - intro H. apply flags_membership in H.
    destruct H as [[H _] | [[_ H] | [[H _] | [H _]]]];
      [ discriminate H | exact H | discriminate H | discriminate H ].
  - intro H. apply flags_membership. right. left. tauto.
  - intro H. apply flags_membership in H.
    destruct H as [[H _] | [[H _] | [[_ H] | [H _]]]];
      [ discriminate H | discriminate H | exact H | discriminate H ].
  - intro H. apply flags_membership. right. right. left. tauto.
  - intro H. apply flags_membership in H.
    destruct H as [[H _] | [[H _] | [[H _] | [_ H]]]];
      [ discriminate H | discriminate H | discriminate H | exact H ].
  - intro H. apply flags_membership. right. right. right. tauto.
  - rewrite flag_anomalies_rules.
    destruct (below (ratio_get ratios "current_ratio") 1),
      (above (ratio_get ratios "debt_to_equity") 2),
      (below (dict_get fin "Net Income") 0),
      (below (dict_get fin "Cash and Equivalents") 0); simpl;
      repeat (constructor; [ simpl; intuition discriminate | ]); constructor.
Qed.

(** ** detect_scale: notes inside a larger text *)

Lemma substring_lower_embedded (ph pre t post : str) :
  substring ph (lower t) -> substring ph (lower (pre ++ t ++ post)).
Proof.
  intros [a [b H]]. unfold lower in *. rewrite !map_app, H.
  exists (map lower_char pre ++ a), (b ++ map lower_char post).
  rewrite <- !app_assoc. reflexivity.
Qed.

Lemma mentions_embedded (phrases : list str) (pre t post : str) :
  mentions phrases t -> mentions phrases (pre ++ t ++ post).
Proof.
  intros [ph [Hin H]]. exists ph. split; [ exact Hin | ].
  apply substring_lower_embedded. exact H.
Qed.

(** X16. [detect_scale] gives 1, 1000 or 1000000.  A thousands note keeps
    its effect inside any larger text; a millions note does too, unless the
    larger text also has a thousands note, which wins. *)
Theorem detect_scale_embedded (pre t post : str) :
  (detect_scale t = 1 \/ detect_scale t = 1000 \/ detect_scale t = 1000000)
  /\ (detect_scale t = 1000 -> detect_scale (pre ++ t ++ post) = 1000)
  /\ (detect_scale t = 1000000 ->
      detect_scale (pre ++ t ++ post) = 1000000
      \/ (detect_scale (pre ++ t ++ post) = 1000
          /\ mentions thousands_phrases (pre ++ t ++ post))).
Proof.
  pose proof (mentions_embedded thousands_phrases pre t post) as Hth.
  pose proof (mentions_embedded millions_phrases pre t post) as Hmi.
  rewrite !mentions_existsb in Hth, Hmi.
  rewrite mentions_existsb, !detect_scale_existsb.
  set (th := existsb (fun ph => contains ph (lower t)) thousands_phrases) in *.
  set (mi := existsb (fun ph => contains ph (lower t)) millions_phrases) in *.
  set (th' := existsb (fun ph => contains ph (lower (pre ++ t ++ post)))
                thousands_phrases) in *.
  set (mi' := existsb (fun ph => contains ph (lower (pre ++ t ++ post)))
                millions_phrases) in *.
  destruct th.
  - rewrite (Hth eq_refl). split; [ tauto | ]. split; [ reflexivity | discriminate ].
  - destruct mi.
    + rewrite (Hmi eq_refl). split; [ tauto | ]. split; [ discriminate | ].
      intros _. destruct th'; [ right | left ]; tauto.
    + split; [ tauto | ]. split; discriminate.
Qed.

Lemma detect_scale_embedded_witness :
  detect_scale (py "Consolidated balance sheet " ++ py "(In Thousands)" ++ py ", unaudited")
  = 1000.
Proof.
  apply (proj1 (proj2 (detect_scale_embedded _ _ _))). reflexivity.
Defined.

(** ** analyze: the whole run *)

(** X17. The analysis returns on every text, it never raises: the items
    are canonical items, there are seven ratios, under their fixed names,
    and the flags are those of [flag_anomalies] on these items and
    ratios, each one of the four messages. *)
Theorem analyze_returns (text : str) :
  exists res,
    analyze text = Returns res
    /\ incl (keys (financial_items res)) (keys ALIASES)
    /\ NoDup (keys (financial_items res))
    /\ (length (numbers_found res) <= length (findall text))%nat
    /\ keys (ratios_of res) = ratio_names
    /\ incl (flags_of res) [liquidity_flag; leverage_flag; loss_flag; cash_flag].
Proof.
  unfold analyze.
  rewrite find_by_aliases_ops. cbn [bind].
  unfold extract_all_numbers. rewrite extract_loop. cbn [bind app].
  rewrite compute_ratios_entries. cbn [bind].
  eexists. split; [ reflexivity | ]. cbn [financial_items numbers_found ratios_of flags_of].
  split; [ | split; [ | split; [ | split ] ] ].
  - intros k Hk. rewrite keys_apply_ops in Hk.
    apply in_app_or in Hk. destruct Hk as [[] | Hk].
    apply filter_In in Hk. destruct Hk as [Hk _].
    rewrite In_first_occurrences in Hk.
    apply in_map_iff in Hk. destruct Hk as [[k' v] [Hfst Hk]].
    apply in_flat_map in Hk. destruct Hk as [ln [_ Hk]].
    apply (in_map fst) in Hk. rewrite Hfst in Hk.
    apply In_line_ops_keys in Hk. destruct Hk as [v' Hv].
    apply (contribution_key _ _ _ _ Hv).
  - apply NoDup_keys_apply_ops. constructor.
  - generalize (findall text) as tokens.
    induction tokens as [| raw tokens IH]; [ apply le_n | ].
    cbn [flat_map]. rewrite length_app. cbn [length].
    destruct (value_of (parse_number_str raw (detect_scale text))); simpl; lia.
  - reflexivity.
  - intros f Hf. apply flags_membership in Hf. simpl.
    destruct Hf as [[-> _] | [[-> _] | [[-> _] | [-> _]]]]; tauto.
Qed.

(** ** parse_number_str: the decimal point *)

Lemma span_until (p : ascii -> bool) (a : str) (x : ascii) (b : str) :
  Forall (fun c => p c = true) a -> p x = false ->
  span p (a ++ x :: b) = (a, x :: b).
Proof.
  intros Ha Hx. induction Ha as [| c a Hc _ IH]; simpl.
  - rewrite Hx. reflexivity.
  - rewrite Hc, IH. reflexivity.
Qed.

Lemma float_of_decimal (ip fp : str) :
  Forall (fun c => is_digit c = true) ip ->
  Forall (fun c => is_digit c = true) fp ->
  ip ++ fp <> [] ->
  float_ (ip ++ "."%char :: fp) =
  Returns (Qmake (digits_val (ip ++ fp)) (Z.to_pos (10 ^ Z.of_nat (length fp)))).
Proof.
  intros Hip Hfp Hne. unfold float_.
  assert (Hsign : opt_char "-" (ip ++ "."%char :: fp) = ([], ip ++ "."%char :: fp)).
  { destruct ip as [| d ip]; [ reflexivity | ].
    cbn [app opt_char]. destruct (Ascii.eqb_spec d "-") as [-> | _]; [ | reflexivity ].
    inversion Hip as [| ? ? Hbad _]. discriminate Hbad. }
  rewrite Hsign, (span_until is_digit ip "." fp Hip eq_refl).
  cbn [opt_char]. rewrite Ascii.eqb_refl, (span_all is_digit fp Hfp).
  destruct (ip ++ fp) as [| d ds] eqn:E; [ contradiction | reflexivity ].
Qed.

(** X18. A decimal numeral gives its value: digits, a decimal point and
    digits, with a digit on one side at least, give the number the digits
    write divided by the power of ten of the number of decimals, multiplied
    by the scale. *)
Theorem parse_number_str_decimal (ip fp : str) (scale : Q) :
  Forall (fun c => is_digit c = true) ip ->
  Forall (fun c => is_digit c = true) fp ->
  ip ++ fp <> [] ->
  parse_number_str (ip ++ "."%char :: fp) scale =
  Returns (Some (Qmake (digits_val (ip ++ fp)) (Z.to_pos (10 ^ Z.of_nat (length fp)))
                 * scale)).
Proof.
  intros Hip Hfp Hne.
  set (s := ip ++ "."%char :: fp).
  assert (Hchars : forall c, In c s -> is_digit c = true \/ c = "."%char).
  { intros c Hc. unfold s in Hc. apply in_app_or in Hc.
    rewrite Forall_forall in Hip, Hfp.
    destruct Hc as [Hc | [<- | Hc]]; [ left; apply Hip | right | left; apply Hfp ];
      tauto || reflexivity. }
  assert (Hkeep : forall (p : ascii -> bool),
            p "."%char = true -> (forall c, is_digit c = true -> p c = true) ->
            filter p s = s).
  { intros p Hdot Hdig. apply forallb_filter_id. apply forallb_forall.
    intros c Hc. destruct (Hchars c Hc) as [H | ->]; [ apply Hdig; exact H | exact Hdot ]. }
  assert (Hdigit : exists d, In d s /\ is_digit d = true).
  { destruct ip as [| d ip'].
    - destruct fp as [| d fp']; [ contradiction | ].
      exists d. split; [ right; left; reflexivity | ].
      inversion Hfp; assumption.
    - exists d. split; [ left; reflexivity | ]. inversion Hip; assumption. }
  assert (Hstrip : strip s = s).
  { apply strip_no_space. apply Forall_forall. intros c Hc.
    destruct (Hchars c Hc) as [H | ->]; [ apply digit_not_space; exact H | reflexivity ]. }
  assert (Hsent : str_in s [py ""; em_dash; py "-"; py "N/A"; py "na"; py "n/a"]
                  = false).
  { apply str_in_false. intro H. destruct Hdigit as [d [Hd Hdd]].
    repeat (destruct H as [H | H];
            [ rewrite <- H in Hd; simpl in Hd;
              repeat (destruct Hd as [<- | Hd]; [ discriminate Hdd | ]);
              contradiction | ]).
    contradiction. }
  assert (Hneg : startswith (py "(") s = false).
  { destruct s as [| c s'] eqn:E; [ reflexivity | ].
    cbn [py list_ascii_of_string startswith].
    destruct (Ascii.eqb_spec "(" c) as [<- | _]; [ | reflexivity ].
    destruct (Hchars "("%char (or_introl eq_refl)) as [H | H]; discriminate H. }
  assert (Hres : re_sub_non_numeric
                   (replace en_dash (py "-")
                      (replace (py " ") (py "")
                         (replace (py ",") (py "") (replace (py "$") (py "") s))))
                 = s).
  { change (py "$") with ["$"%char]. change (py ",") with [","%char].
    change (py " ") with [" "%char]. change (py "") with (@nil ascii).
    rewrite !replace_char_filter.
    assert (Hno : forall x : ascii,
              is_digit x = false -> x <> "."%char ->
              filter (fun c => negb (Ascii.eqb x c)) s = s).
    { intros x Hx Hxd. apply Hkeep.
      - destruct (Ascii.eqb_spec x "."); [ contradiction | reflexivity ].
      - intros c Hc. destruct (Ascii.eqb_spec x c) as [-> | _]; [ congruence | reflexivity ]. }
    rewrite (Hno "$"%char), (Hno ","%char), (Hno " "%char)
      by (reflexivity || discriminate).
    change en_dash with (ascii_of_nat 226 :: map ascii_of_nat [128; 147]%nat).
    rewrite replace_absent.
    - apply Hkeep; [ reflexivity | ].
      intros c Hc. unfold keeps. rewrite Hc. reflexivity.
    - intros x Hx. destruct (Ascii.eqb_spec (ascii_of_nat 226) x) as [<- | _];
        [ | reflexivity ].
      destruct (Hchars _ Hx) as [H | H]; discriminate H. }
  unfold parse_number_str.
  rewrite Hstrip, Hsent, Hneg. cbn [andb]. rewrite Hres.
  rewrite (str_in_false s).
  2:{ intro H. destruct Hdigit as [d [Hd Hdd]].
      repeat (destruct H as [H | H];
              [ rewrite <- H in Hd; simpl in Hd;
                repeat (destruct Hd as [<- | Hd]; [ discriminate Hdd | ]);
                contradiction | ]).
      contradiction. }
  unfold s. rewrite (float_of_decimal ip fp Hip Hfp Hne). reflexivity.
Qed.

Lemma parse_number_str_decimal_witness :
  parse_number_str (py "1234" ++ "."%char :: py "50") 1000 =
  Returns (Some ((123450 # 100) * 1000)).
Proof.
  apply (parse_number_str_decimal (py "1234") (py "50") 1000).
  - repeat (constructor; [ reflexivity | ]). constructor.
  - repeat (constructor; [ reflexivity | ]). constructor.
  - discriminate.
Defined.

(** ** The case of the letters *)

Ltac leb_cases :=
  repeat match goal with
         | |- context [(?a <=? ?b)%nat] => destruct (Nat.leb_spec a b)
         | |- context [(?a =? ?b)%nat] => destruct (Nat.eqb_spec a b)
         end;
  cbn [andb] in *; try reflexivity; try (exfalso; lia).

Lemma lower_char_cases (c : ascii) :
  ((65 <= code c <= 90)%nat /\ code (lower_char c) = (code c + 32)%nat)
  \/ (~ (65 <= code c <= 90)%nat /\ lower_char c = c).
Proof.
  unfold lower_char.
  destruct ((65 <=? code c)%nat && (code c <=? 90)%nat) eqn:E.
  - apply andb_true_iff in E. destruct E as [E1 E2].
    apply Nat.leb_le in E1. apply Nat.leb_le in E2.
    left. split; [ lia | ]. unfold code in *. apply nat_ascii_embedding. lia.
  - right. split; [ | reflexivity ]. intros [H1 H2].
    apply Nat.leb_le in H1. apply Nat.leb_le in H2. rewrite H1, H2 in E. discriminate.
Qed.

Lemma ascii_eqb_code (a b : ascii) : Ascii.eqb a b = (code a =? code b)%nat.
Proof.
  destruct (Ascii.eqb_spec a b) as [-> | Hne].
  - symmetry. apply Nat.eqb_refl.
  - symmetry. apply Nat.eqb_neq. intro H. apply Hne.
    rewrite <- (ascii_nat_embedding a), <- (ascii_nat_embedding b).
    unfold code in H. rewrite H. reflexivity.
Qed.

Lemma eqb_lower_char (c x : ascii) :
  (code x < 65)%nat -> Ascii.eqb (lower_char c) x = Ascii.eqb c x.
Proof.
  intro Hx. rewrite !ascii_eqb_code.
  destruct (lower_char_cases c) as [[Hr ->] | [_ ->]]; [ leb_cases | reflexivity ].
Qed.

Lemma is_digit_lower_char (c : ascii) : is_digit (lower_char c) = is_digit c.
Proof.
  unfold is_digit.
  destruct (lower_char_cases c) as [[Hr ->] | [_ ->]]; [ leb_cases | reflexivity ].
Qed.

Lemma is_space_lower_char (c : ascii) : is_space (lower_char c) = is_space c.
Proof.
  unfold is_space.
  destruct (lower_char_cases c) as [[Hr ->] | [_ ->]]; [ leb_cases | reflexivity ].
Qed.

Lemma is_linebreak_lower_char (c : ascii) :
  is_linebreak (lower_char c) = is_linebreak c.
Proof.
  unfold is_linebreak.
  destruct (lower_char_cases c) as [[Hr ->] | [_ ->]]; [ leb_cases | reflexivity ].
Qed.

Lemma code_eqb_lower_char (c : ascii) (n : nat) :
  (n < 65)%nat -> (code (lower_char c) =? n)%nat = (code c =? n)%nat.
Proof.
  intro Hn.
  destruct (lower_char_cases c) as [[Hr ->] | [_ ->]]; [ leb_cases | reflexivity ].
Qed.

Lemma lower_char_idem (c : ascii) : lower_char (lower_char c) = lower_char c.
Proof.
  destruct (lower_char_cases (lower_char c)) as [[Hr _] | [_ H]]; [ | exact H ].
  destruct (lower_char_cases c) as [[Hr' Hc] | [Hr' Hc]].
  - rewrite Hc in Hr. lia.
  - rewrite Hc in Hr. contradiction.
Qed.

Lemma lower_idem (s : str) : lower (lower s) = lower s.
Proof.
  unfold lower. rewrite map_map. apply map_ext. apply lower_char_idem.
Qed.

Lemma lower_char_digit_or_comma (c : ascii) :
  is_digit_or_comma (lower_char c) = is_digit_or_comma c.
Proof.
  unfold is_digit_or_comma. rewrite is_digit_lower_char, eqb_lower_char; [ reflexivity | ].
  vm_compute. lia.
Qed.

Lemma opt_char_lower (x : ascii) (s : str) :
  (code x < 65)%nat ->
  opt_char x (lower s) = (fst (opt_char x s), lower (snd (opt_char x s))).
Proof.
  intro Hx. destruct s as [| c s]; [ reflexivity | ].
  cbn [lower map opt_char]. rewrite (eqb_lower_char c x Hx).
  destruct (Ascii.eqb c x); reflexivity.
Qed.

Lemma span_lower (p : ascii -> bool) (s : str) :
  (forall c, p (lower_char c) = p c) ->
  (forall c, p c = true -> lower_char c = c) ->
  span p (lower s) = (fst (span p s), lower (snd (span p s))).
Proof.
  intros Hp Hfix. induction s as [| c s IH]; [ reflexivity | ].
  cbn [lower map span]. rewrite Hp.
  destruct (p c) eqn:Hc; [ | reflexivity ].
  change (map lower_char s) with (lower s). rewrite IH.
  destruct (span p s) as [a b]. cbn [fst snd]. rewrite (Hfix c Hc). reflexivity.
Qed.

Lemma lower_char_digit_or_comma_fixed (c : ascii) :
  is_digit_or_comma c = true -> lower_char c = c.
Proof.
  unfold is_digit_or_comma. intro H. apply orb_true_iff in H.
  destruct H as [H | H]; [ apply lower_char_digit; exact H | ].
  apply Ascii.eqb_eq in H. subst c. reflexivity.
Qed.

Lemma match_number_lower (s : str) : match_number (lower s) = match_number s.
Proof.
  unfold match_number.
  rewrite (opt_char_lower "(" s) by (vm_compute; lia).
  destruct (opt_char "(" s) as [m1 s1]. cbn [fst snd].
  rewrite (opt_char_lower "-" s1) by (vm_compute; lia).
  destruct (opt_char "-" s1) as [m2 s2]. cbn [fst snd].
  rewrite (opt_char_lower "$" s2) by (vm_compute; lia).
  destruct (opt_char "$" s2) as [m3 s3]. cbn [fst snd].
  rewrite (span_lower is_digit_or_comma s3 lower_char_digit_or_comma
             lower_char_digit_or_comma_fixed).
  destruct (span is_digit_or_comma s3) as [m4 s4]. cbn [fst snd].
  destruct m4 as [| c4 m4]; [ reflexivity | ].
  rewrite (opt_char_lower "." s4) by (vm_compute; lia).
  destruct (opt_char "." s4) as [dot t]. cbn [fst snd].
  rewrite (span_lower is_digit t is_digit_lower_char lower_char_digit).
  destruct (span is_digit t) as [d t']. cbn [fst snd].
  destruct dot as [| x dot], d as [| y d];
    try (rewrite (opt_char_lower ")" s4) by (vm_compute; lia);
         destruct (opt_char ")" s4); reflexivity).
  rewrite (opt_char_lower ")" t') by (vm_compute; lia).
  destruct (opt_char ")" t'); reflexivity.
Qed.

Lemma findall_lower (s : str) : findall (lower s) = findall s.
Proof.
  unfold findall. generalize 0%nat as skip.
  induction s as [| c s IH]; intro skip; [ reflexivity | ].
  change (lower (c :: s)) with (lower_char c :: lower s).
  cbn [findall_from]. destruct skip as [| k]; [ | apply IH ].
  change (lower_char c :: lower s) with (lower (c :: s)).
  rewrite match_number_lower.
  destruct (match_number (c :: s)); rewrite IH; reflexivity.
Qed.

Lemma lstrip_lower (s : str) : lstrip (lower s) = lower (lstrip s).
Proof.
  induction s as [| c s IH]; [ reflexivity | ].
  cbn [lower map lstrip]. rewrite is_space_lower_char.
  destruct (is_space c); [ exact IH | reflexivity ].
Qed.

Lemma rev_lower (s : str) : rev (lower s) = lower (rev s).
Proof. unfold lower. symmetry. apply map_rev. Qed.

Lemma strip_lower (s : str) : strip (lower s) = lower (strip s).
Proof.
  unfold strip, rstrip.
  rewrite lstrip_lower, rev_lower, lstrip_lower, rev_lower. reflexivity.
Qed.

Lemma splitlines_from_lower (s : str) :
  forall cur cr,
    splitlines_from (lower cur) cr (lower s) = map lower (splitlines_from cur cr s).
Proof.
  induction s as [| c s IH]; intros cur cr.
  - cbn [lower map splitlines_from]. destruct cur as [| a cur]; [ reflexivity | ].
    cbn [map]. rewrite <- rev_lower. reflexivity.
  - change (lower (c :: s)) with (lower_char c :: lower s).
    cbn [splitlines_from].
    rewrite (code_eqb_lower_char c 10) by lia.
    rewrite (code_eqb_lower_char c 13) by lia.
    rewrite is_linebreak_lower_char.
    destruct (cr && (code c =? 10)%nat); [ apply IH | ].
    destruct (is_linebreak c).
    + cbn [map]. rewrite <- (IH [] (code c =? 13)%nat), rev_lower. reflexivity.
    + apply (IH (c :: cur) false).
Qed.

Lemma doc_lines_lower (text : str) : doc_lines (lower text) = map lower (doc_lines text).
Proof.
  unfold doc_lines, splitlines.
  change (splitlines_from [] false (lower text))
    with (splitlines_from (lower []) false (lower text)).
  rewrite (splitlines_from_lower text [] false), filter_map_swap, !map_map.
  rewrite (filter_ext _ (fun ln => match strip ln with [] => false | _ => true end)).
  - apply map_ext. intro ln. apply strip_lower.
  - intro ln. rewrite strip_lower. destruct (strip ln); reflexivity.
Qed.

Lemma line_ops_lower (scale : Q) (ln : str) :
  line_ops scale (lower ln) = line_ops scale ln.
Proof.
  unfold line_ops, line_value, matching_keys, phrase_hit.
  rewrite findall_lower, lower_idem. reflexivity.
Qed.

(** X19. The case of the letters does not count: two texts that differ
    only in the case of their letters give the same analysis (items,
    numbers, ratios and flags). *)
Theorem analyze_case_insensitive (t1 t2 : str) :
  lower t1 = lower t2 -> analyze t1 = analyze t2.
Proof.
  assert (H : forall t, analyze (lower t) = analyze t).
  { intro t. unfold analyze, detect_scale, extract_all_numbers.
    rewrite lower_idem, findall_lower, !find_by_aliases_ops, doc_lines_lower.
    rewrite flat_map_concat_map, map_map, <- flat_map_concat_map.
    rewrite (flat_map_ext _ (line_ops (detect_scale t))).
    - reflexivity.
    - intro ln. apply line_ops_lower. }
  intro Heq. rewrite <- (H t1), <- (H t2), Heq. reflexivity.
Qed.

Lemma analyze_case_insensitive_witness :
  analyze (py "TOTAL REVENUE 1,500 (In Thousands)")
  = analyze (py "Total revenue 1,500 (in thousands)").
Proof.
  apply analyze_case_insensitive. reflexivity.
Defined.
